(** * ArrayRef: a checked random-access iterator and a non-owning view

    A shallow embedding of [cxx::array_iterator] and [cxx::array_ref]
    (ArrayRef.h) together with the properties the specification states
    about them.

    Conventions of the embedding.
    - The build is the debug build: every [assert] of the source is kept and
      a failing one ends the computation with [AssertionFailed].
    - [std::ptrdiff_t] is a 64-bit two's complement integer, modelled as a
      [Z] together with the wrap-around of each arithmetic operation.
    - A pointer is [nullptr] or an element of an array object (a block and an
      element offset); [p + n] moves inside the block.
    - A reference returned by the source ([operator*], [operator[]]) is
      modelled by the address of the element it denotes.
    - A member function that modifies [*this] returns the new value of
      [*this]. *)

From Stdlib Require Import ZArith Lia Bool String List.
Import ListNotations.

Local Open Scope string_scope.
Local Open Scope Z_scope.

(** ** std::ptrdiff_t *)

Definition PTRDIFF_MAX : Z := 9223372036854775807.
Definition PTRDIFF_MIN : Z := -9223372036854775808.

(** The values a [difference_type] object can hold. *)
Definition representable (z : Z) : Prop := PTRDIFF_MIN <= z <= PTRDIFF_MAX.

(** The 64-bit two's complement value of a mathematical integer: what the
    usual targets compute where a signed operation overflows (the language
    leaves that case undefined). *)
Definition wrap (z : Z) : Z :=
  (z - PTRDIFF_MIN) mod 18446744073709551616 + PTRDIFF_MIN.

Definition ptrdiff_add (x y : Z) : Z := wrap (x + y).
Definition ptrdiff_sub (x y : Z) : Z := wrap (x - y).

(** ** Assertions *)

Inductive checked (A : Type) : Type :=
| Ok (a : A)
| AssertionFailed (cond : string).

Arguments Ok {A} a.
Arguments AssertionFailed {A} cond.

Definition bind {A B : Type} (c : checked A) (k : A -> checked B) : checked B :=
  match c with
  | Ok a => k a
  | AssertionFailed cond => AssertionFailed cond
  end.

Notation "x <- c ;; k" := (bind c (fun x => k))
  (at level 61, c at next level, right associativity).
Notation "c ;;; k" := (bind c (fun _ => k))
  (at level 61, right associativity).

(** [assert(cond)] of <cassert>; the string is the text of the condition. *)
Definition assert (b : bool) (cond : string) : checked unit :=
  if b then Ok tt else AssertionFailed cond.

(** ** Pointers *)

Inductive pointer : Type :=
| nullptr
| Ptr (block : positive) (ofs : Z).

Definition ptr_eqb (p q : pointer) : bool :=
  match p, q with
  | nullptr, nullptr => true
  | Ptr b o, Ptr b' o' => Pos.eqb b b' && Z.eqb o o'
  | _, _ => false
  end.

(** [p + n]. On the null pointer only [nullptr + 0] is defined by the
    language; the model leaves the null pointer where it is. *)
Definition ptr_add (p : pointer) (n : Z) : pointer :=
  match p with
  | nullptr => nullptr
  | Ptr b o => Ptr b (o + n)
  end.

(** [p - q], defined for two null pointers and for two pointers into the same
    array object. *)
Definition ptr_diff (p q : pointer) : option Z :=
  match p, q with
  | nullptr, nullptr => Some 0
  | Ptr b o, Ptr b' o' => if Pos.eqb b b' then Some (wrap (o - o')) else None
  | _, _ => None
  end.

(** ** Element types and [is_array_convertible] *)

(** An element type: a cv-unqualified object type, named, with its top-level
    qualifiers. *)
Record cv_type : Type := mk_cv_type {
  unqualified : string;
  is_const : bool;
  is_volatile : bool
}.

Definition cv_type_eqb (a b : cv_type) : bool :=
  String.eqb (unqualified a) (unqualified b)
  && Bool.eqb (is_const a) (is_const b)
  && Bool.eqb (is_volatile a) (is_volatile b).

(** Modelled from the spec: [std::is_convertible<From ( * )[], To ( * )[]>] is
    the standard library's, not the repository's. The specification describes
    it as: the two element types are the same type up to adding
    [const]/[volatile] qualification at the top level of the element type. *)
Definition is_array_convertible (From To : cv_type) : bool :=
  String.eqb (unqualified From) (unqualified To)
  && implb (is_const From) (is_const To)
  && implb (is_volatile From) (is_volatile To).

(** [T] without qualifiers, [const T] and [volatile T]. *)
Definition plain (name : string) : cv_type := mk_cv_type name false false.

Definition add_const (T : cv_type) : cv_type :=
  mk_cv_type (unqualified T) true (is_volatile T).

Definition add_volatile (T : cv_type) : cv_type :=
  mk_cv_type (unqualified T) (is_const T) true.

(** ** array_iterator *)

Module ArrayIterator.

Record array_iterator : Type := mk {
  ptr_ : pointer;
  pos_ : Z;
  size_ : Z
}.

(** [array_iterator()] *)
Definition default : array_iterator := mk nullptr 0 0.

(** [array_iterator(array_iterator<OtherPointerT> const& it)], enabled when
    the element type of the source converts to the element type of the
    target. [None]: the constructor is not a candidate. *)
Definition converting (From To : cv_type) (it : array_iterator)
  : option array_iterator :=
  if is_array_convertible From To
  then Some (mk (ptr_ it) (pos_ it) (size_ it))
  else None.

(** [array_iterator(pointer ptr, difference_type size, difference_type pos = 0)] *)
Definition make (ptr : pointer) (size : Z) (pos : Z) : checked array_iterator :=
  let it := mk ptr pos size in
  assert ((ptr_eqb (ptr_ it) nullptr && (size_ it =? 0))
          || (negb (ptr_eqb (ptr_ it) nullptr) && (size_ it >=? 0)))
         "(ptr_ == nullptr && size_ == 0) || (ptr_ != nullptr && size_ >= 0)" ;;;
  assert (pos_ it >=? 0) "pos_ >= 0" ;;;
  assert (pos_ it <=? size_ it) "pos_ <= size_" ;;;
  Ok it.

(** [ptr()] *)
Definition ptr (it : array_iterator) : pointer :=
  ptr_add (ptr_ it) (pos_ it).

(** [operator*()] *)
Definition operator_deref (it : array_iterator) : checked pointer :=
  assert (negb (ptr_eqb (ptr_ it) nullptr)) "ptr_ != nullptr" ;;;
  assert (pos_ it <? size_ it) "pos_ < size_" ;;;
  Ok (ptr_add (ptr_ it) (pos_ it)).

(** [operator->()] *)
Definition operator_arrow (it : array_iterator) : checked pointer :=
  assert (negb (ptr_eqb (ptr_ it) nullptr)) "ptr_ != nullptr" ;;;
  assert (pos_ it <? size_ it) "pos_ < size_" ;;;
  Ok (ptr_add (ptr_ it) (pos_ it)).

(** [operator++()] *)
Definition operator_preinc (it : array_iterator) : checked array_iterator :=
  assert (pos_ it <? size_ it) "pos_ < size_" ;;;
  Ok (mk (ptr_ it) (ptrdiff_add (pos_ it) 1) (size_ it)).

(** [operator++(int)]: the value returned and the new [*this]. *)
Definition operator_postinc (it : array_iterator)
  : checked (array_iterator * array_iterator) :=
  let t := it in
  it' <- operator_preinc it ;;
  Ok (t, it').

(** [operator--()] *)
Definition operator_predec (it : array_iterator) : checked array_iterator :=
  assert (pos_ it >? 0) "pos_ > 0" ;;;
  Ok (mk (ptr_ it) (ptrdiff_sub (pos_ it) 1) (size_ it)).

(** [operator--(int)]: the value returned and the new [*this]. *)
Definition operator_postdec (it : array_iterator)
  : checked (array_iterator * array_iterator) :=
  let t := it in
  it' <- operator_predec it ;;
  Ok (t, it').

(** [operator+=(difference_type n)] *)
Definition operator_add_assign (it : array_iterator) (n : Z)
  : checked array_iterator :=
  assert (ptrdiff_add (pos_ it) n >=? 0) "pos_ + n >= 0" ;;;
  assert (ptrdiff_add (pos_ it) n <=? size_ it) "pos_ + n <= size_" ;;;
  Ok (mk (ptr_ it) (ptrdiff_add (pos_ it) n) (size_ it)).

(** [operator+(difference_type n) const] *)
Definition operator_plus (it : array_iterator) (n : Z) : checked array_iterator :=
  let t := it in
  t' <- operator_add_assign t n ;;
  Ok t'.

(** [friend operator+(difference_type n, array_iterator it)] *)
Definition operator_plus_l (n : Z) (it : array_iterator) : checked array_iterator :=
  operator_plus it n.

(** [operator-=(difference_type n)] *)
Definition operator_sub_assign (it : array_iterator) (n : Z)
  : checked array_iterator :=
  assert (ptrdiff_sub (pos_ it) n >=? 0) "pos_ - n >= 0" ;;;
  assert (ptrdiff_sub (pos_ it) n <=? size_ it) "pos_ - n <= size_" ;;;
  Ok (mk (ptr_ it) (ptrdiff_sub (pos_ it) n) (size_ it)).

(** [operator-(difference_type n) const] *)
Definition operator_minus (it : array_iterator) (n : Z) : checked array_iterator :=
  let t := it in
  t' <- operator_sub_assign t n ;;
  Ok t'.

(** [operator-(array_iterator rhs) const] *)
Definition operator_diff (it rhs : array_iterator) : checked Z :=
  assert (ptr_eqb (ptr_ it) (ptr_ rhs)) "ptr_ == rhs.ptr_" ;;;
  Ok (ptrdiff_sub (pos_ it) (pos_ rhs)).

(** [operator[](difference_type index) const] *)
Definition operator_index (it : array_iterator) (index : Z) : checked pointer :=
  assert (negb (ptr_eqb (ptr_ it) nullptr)) "ptr_ != nullptr" ;;;
  assert (ptrdiff_add (pos_ it) index >=? 0) "pos_ + index >= 0" ;;;
  assert (ptrdiff_add (pos_ it) index <? size_ it) "pos_ + index < size_" ;;;
  Ok (ptr_add (ptr_ it) (ptrdiff_add (pos_ it) index)).

(** [friend operator==] *)
Definition operator_eq (lhs rhs : array_iterator) : checked bool :=
  assert (ptr_eqb (ptr_ lhs) (ptr_ rhs)) "lhs.ptr_ == rhs.ptr_" ;;;
  Ok (pos_ lhs =? pos_ rhs).

(** [friend operator!=] *)
Definition operator_ne (lhs rhs : array_iterator) : checked bool :=
  b <- operator_eq lhs rhs ;;
  Ok (negb b).

(** [friend operator<] *)
Definition operator_lt (lhs rhs : array_iterator) : checked bool :=
  assert (ptr_eqb (ptr_ lhs) (ptr_ rhs)) "lhs.ptr_ == rhs.ptr_" ;;;
  Ok (pos_ lhs <? pos_ rhs).

(** [friend operator>] *)
Definition operator_gt (lhs rhs : array_iterator) : checked bool :=
  operator_lt rhs lhs.

(** [friend operator<=] *)
Definition operator_le (lhs rhs : array_iterator) : checked bool :=
  b <- operator_lt rhs lhs ;;
  Ok (negb b).

(** [friend operator>=] *)
Definition operator_ge (lhs rhs : array_iterator) : checked bool :=
  b <- operator_lt lhs rhs ;;
  Ok (negb b).

(** [friend _Unchecked(_Checked_type it)], compiled with [_MSC_VER]. *)
Definition _Unchecked (it : array_iterator) : pointer :=
  ptr_add (ptr_ it) (pos_ it).

(** [friend _Rechecked(_Checked_type& it, _Unchecked_type p)], compiled with
    [_MSC_VER]: the new value of [it]; [None] when [p - it.ptr_] is not
    defined. *)
Definition _Rechecked (it : array_iterator) (p : pointer)
  : option array_iterator :=
  match ptr_diff p (ptr_ it) with
  | Some d => Some (mk (ptr_ it) d (size_ it))
  | None => None
  end.

End ArrayIterator.

(** ** Sources of the from-container constructors *)

(** The value category of the expression a view is initialised from. *)
Inductive value_category : Type :=
| lvalue
| rvalue.

(** What the from-container constructors see of their argument: the category
    and the constness of the expression, the element type [data()] points to
    when called on a non-const and on a const object, and the values of
    [data()] and [size()]. *)
Record container : Type := mk_container {
  category : value_category;
  object_const : bool;
  data_elem : cv_type;
  data_elem_const : cv_type;
  data_value : pointer;
  size_value : Z
}.

(** A [std::vector<X>] or [std::array<X, N>] argument: [data()] returns [X*]
    on a non-const object and [const X*] on a const one. *)
Definition std_container (cat : value_category) (cst : bool) (X : cv_type)
    (d : pointer) (n : Z) : container :=
  mk_container cat cst X (add_const X) d n.

(** ** array_ref *)

Module ArrayRef.

Import ArrayIterator.

Record array_ref : Type := mk_ref {
  data_ : pointer;
  size_ : Z
}.

(** [Min(x, y)] *)
Definition Min (x y : Z) : Z := if y <? x then y else x.

(** [array_ref()] *)
Definition default : array_ref := mk_ref nullptr 0.

(** The condition asserted by the two range constructors. *)
Definition valid (v : array_ref) : bool :=
  (ptr_eqb (data_ v) nullptr && (size_ v =? 0))
  || (negb (ptr_eqb (data_ v) nullptr) && (size_ v >=? 0)).

(** [array_ref(pointer first, pointer last)]; [None] when [last - first] is
    not defined. *)
Definition of_pointers (first last : pointer) : option (checked array_ref) :=
  match ptr_diff last first with
  | None => None
  | Some d =>
      let v := mk_ref first d in
      Some (assert (valid v)
              "(data_ == nullptr && size_ == 0) || (data_ != nullptr && size_ >= 0)" ;;;
            Ok v)
  end.

(** [array_ref(iterator first, iterator last)] *)
Definition of_iterators (first last : array_iterator) : checked array_ref :=
  let d := ptr first in
  n <- operator_diff last first ;;
  let v := mk_ref d n in
  assert (valid v)
    "(data_ == nullptr && size_ == 0) || (data_ != nullptr && size_ >= 0)" ;;;
  Ok v.

(** [array_ref(U* p, difference_type n)], enabled when [U] converts to the
    element type [T] of the view. *)
Definition of_pointer_count (T U : cv_type) (p : pointer) (n : Z)
  : option array_ref :=
  if is_array_convertible U T then Some (mk_ref p n) else None.

(** [array_ref(U (&arr)[N])], enabled when [U] converts to [T]. *)
Definition of_array (T U : cv_type) (arr : pointer) (N : Z) : option array_ref :=
  if is_array_convertible U T then Some (mk_ref arr (wrap N)) else None.

(** [array_ref(Rhs& rhs)]. [Rhs] is deduced with the constness of the
    argument: [Rhs&] binds every lvalue, and an rvalue only when [Rhs] is
    const. The guard looks at [data()] called on an [Rhs&]. *)
Definition of_container_ref (T : cv_type) (rhs : container) : option array_ref :=
  let binds :=
    match category rhs with lvalue => true | rvalue => object_const rhs end in
  let elem :=
    if object_const rhs then data_elem_const rhs else data_elem rhs in
  if binds && is_array_convertible elem T
  then Some (mk_ref (data_value rhs) (wrap (size_value rhs)))
  else None.

(** [array_ref(Rhs const& rhs)]: binds every argument; enabled for a const
    element type whose [data()], called on a const object, converts. *)
Definition of_container_cref (T : cv_type) (rhs : container) : option array_ref :=
  if is_const T && is_array_convertible (data_elem_const rhs) T
  then Some (mk_ref (data_value rhs) (wrap (size_value rhs)))
  else None.

(** [data()] *)
Definition data (v : array_ref) : pointer := data_ v.

(** [size()] *)
Definition size (v : array_ref) : Z := size_ v.

(** [operator[](difference_type index)] *)
Definition operator_index (v : array_ref) (index : Z) : checked pointer :=
  assert (index >=? 0) "index >= 0" ;;;
  assert (index <? size_ v) "index < size_" ;;;
  Ok (ptr_add (data_ v) index).

(** [size_in_bytes()]; [sizeof_T] is [sizeof(element_type)]. *)
Definition size_in_bytes (sizeof_T : Z) (v : array_ref) : Z :=
  wrap (size_ v * sizeof_T).

(** [empty()] *)
Definition empty (v : array_ref) : bool := size_ v =? 0.

(** [begin()] *)
Definition begin (v : array_ref) : checked array_iterator :=
  make (data_ v) (size_ v) 0.

(** [end()] *)
Definition end_ (v : array_ref) : checked array_iterator :=
  make (data_ v) (size_ v) (size_ v).

(** [take_front(n)]: [[begin(), begin() + n)] *)
Definition take_front (v : array_ref) (n : Z) : checked array_ref :=
  let n := Min n (size v) in
  first <- begin v ;;
  b <- begin v ;;
  last <- ArrayIterator.operator_plus b n ;;
  of_iterators first last.

(** [take_back(n)]: [[end() - n, end())] *)
Definition take_back (v : array_ref) (n : Z) : checked array_ref :=
  let n := Min n (size v) in
  e <- end_ v ;;
  first <- ArrayIterator.operator_minus e n ;;
  last <- end_ v ;;
  of_iterators first last.

(** [drop_front(n)]: [[begin() + n, end())] *)
Definition drop_front (v : array_ref) (n : Z) : checked array_ref :=
  let n := Min n (size v) in
  b <- begin v ;;
  first <- ArrayIterator.operator_plus b n ;;
  last <- end_ v ;;
  of_iterators first last.

(** [drop_back(n)]: [[begin(), end() - n)] *)
Definition drop_back (v : array_ref) (n : Z) : checked array_ref :=
  let n := Min n (size v) in
  first <- begin v ;;
  e <- end_ v ;;
  last <- ArrayIterator.operator_minus e n ;;
  of_iterators first last.

(** [subarray(first, last)] *)
Definition subarray (v : array_ref) (first last : Z) : checked array_ref :=
  t <- take_front v last ;;
  drop_front t first.

(** [subarray(first)] *)
Definition subarray_from (v : array_ref) (first : Z) : checked array_ref :=
  drop_front v first.

(** [slice(first, n)] *)
Definition slice (v : array_ref) (first n : Z) : checked array_ref :=
  d <- drop_front v first ;;
  take_front d n.

(** [slice(first)] *)
Definition slice_from (v : array_ref) (first : Z) : checked array_ref :=
  drop_front v first.

(** [friend operator==] *)
Definition operator_eq (lhs rhs : array_ref) : bool :=
  ptr_eqb (data lhs) (data rhs) && (size lhs =? size rhs).

(** [friend operator!=] *)
Definition operator_ne (lhs rhs : array_ref) : bool :=
  negb (operator_eq lhs rhs).

(** A view of element type [U] seen as the argument of a from-container
    constructor: [data()] is a const member returning [U*]. *)
Definition as_container (cat : value_category) (cst : bool) (U : cv_type)
    (v : array_ref) : container :=
  mk_container cat cst U U (data v) (size v).

(** Initialisation of an [array_ref<T>] from one expression denoting an
    [array_ref<U>]: the copy constructor when the types agree, otherwise
    whichever from-container constructor is a candidate. *)
Definition convert (cat : value_category) (cst : bool) (U T : cv_type)
    (v : array_ref) : option array_ref :=
  if cv_type_eqb U T then Some v
  else
    match of_container_ref T (as_container cat cst U v) with
    | Some w => Some w
    | None => of_container_cref T (as_container cat cst U v)
    end.

End ArrayRef.

(** ** Well-formed views and their iterators *)

(** A view as the range constructors leave it, holding a [difference_type]:
    a null [data_] comes with a zero [size_], and [size_] is never negative. *)
Definition well_formed (v : ArrayRef.array_ref) : Prop :=
  ArrayRef.valid v = true /\ ArrayRef.size_ v <= PTRDIFF_MAX.

(** An iterator into the view [v]: what [begin()], [end()] and the checked
    arithmetic on them produce. *)
Definition iterator_of (v : ArrayRef.array_ref) (it : ArrayIterator.array_iterator)
  : Prop :=
  ArrayIterator.ptr_ it = ArrayRef.data_ v
  /\ ArrayIterator.size_ it = ArrayRef.size_ v
  /\ 0 <= ArrayIterator.pos_ it <= ArrayRef.size_ v.

(** [w] lies inside [v]: it starts [k] elements into [v], for some
    [0 <= k <= size], and ends no later than [v] does. *)
Definition within (v w : ArrayRef.array_ref) : Prop :=
  exists k : Z,
    ArrayRef.data_ w = ptr_add (ArrayRef.data_ v) k
    /\ 0 <= k <= ArrayRef.size_ v
    /\ 0 <= ArrayRef.size_ w
    /\ k + ArrayRef.size_ w <= ArrayRef.size_ v.

(** The elements a view denotes in a memory [m] (the content an element-wise
    comparison would look at). *)
Definition elements {A : Type} (m : pointer -> A) (v : ArrayRef.array_ref)
  : list A :=
  map (fun i : nat => m (ptr_add (ArrayRef.data_ v) (Z.of_nat i)))
      (seq 0 (Z.to_nat (ArrayRef.size_ v))).

(** The text of the assertion on a (pointer, size) pair. *)
Definition range_assertion : string :=
  "(ptr_ == nullptr && size_ == 0) || (ptr_ != nullptr && size_ >= 0)".

(** * Properties *)

(** ** Integers, assertions and pointers *)

(** Linear arithmetic with the bounds of [difference_type] spelled out. *)
Ltac range := unfold representable, PTRDIFF_MIN, PTRDIFF_MAX in *; simpl in *; lia.

Lemma wrap_representable (z : Z) : representable z -> wrap z = z.
Proof.
  unfold representable, wrap, PTRDIFF_MIN, PTRDIFF_MAX. intros H.
  rewrite Z.mod_small; lia.
Qed.

Lemma wrap_is_representable (z : Z) : representable (wrap z).
Proof.
  unfold representable, wrap, PTRDIFF_MIN, PTRDIFF_MAX.
  pose proof (Z.mod_pos_bound (z - -9223372036854775808) 18446744073709551616).
  lia.
Qed.

(** A sum that overflows upwards by less than one period becomes negative. *)
Lemma wrap_overflow (z : Z) :
  PTRDIFF_MAX < z <= 2 * PTRDIFF_MAX + 1 -> wrap z = z - 18446744073709551616.
Proof.
  unfold wrap, PTRDIFF_MIN, PTRDIFF_MAX. intros H.
  replace (z - -9223372036854775808)
    with ((z - 18446744073709551616 - -9223372036854775808)
          + 1 * 18446744073709551616) by lia.
  rewrite Z.mod_add by lia. rewrite Z.mod_small; lia.
Qed.

Lemma assert_true (b : bool) (cond : string) : b = true -> assert b cond = Ok tt.
Proof. intros ->. reflexivity. Qed.

Lemma assert_false (b : bool) (cond : string) :
  b = false -> assert b cond = AssertionFailed cond.
Proof. intros ->. reflexivity. Qed.

Lemma ptr_eqb_eq (p q : pointer) : ptr_eqb p q = true <-> p = q.
Proof.
  destruct p as [|b o], q as [|b' o']; simpl; split; intros H;
    try reflexivity; try discriminate.
  - apply andb_true_iff in H as [Hb Ho].
    apply Pos.eqb_eq in Hb. apply Z.eqb_eq in Ho. now subst.
  - injection H as -> ->. now rewrite Pos.eqb_refl, Z.eqb_refl.
Qed.

Lemma ptr_eqb_refl (p : pointer) : ptr_eqb p p = true.
Proof. now apply ptr_eqb_eq. Qed.

Lemma ptr_eqb_neq (p q : pointer) : ptr_eqb p q = false <-> p <> q.
Proof.
  rewrite <- ptr_eqb_eq. destruct (ptr_eqb p q); split; congruence.
Qed.

Lemma ptr_add_0 (p : pointer) : ptr_add p 0 = p.
Proof. destruct p; simpl; [reflexivity | now rewrite Z.add_0_r]. Qed.

Lemma ptr_add_add (p : pointer) (n m : Z) :
  ptr_add (ptr_add p n) m = ptr_add p (n + m).
Proof. destruct p; simpl; [reflexivity | now rewrite Z.add_assoc]. Qed.

Lemma ptr_add_null (p : pointer) (n : Z) :
  ptr_eqb (ptr_add p n) nullptr = ptr_eqb p nullptr.
Proof. now destruct p. Qed.

Lemma ptr_add_inj (p : pointer) (n m : Z) :
  p <> nullptr -> ptr_add p n = ptr_add p m -> n = m.
Proof.
  destruct p as [|b o]; simpl; [congruence |]. intros _ H.
  injection H. lia.
Qed.

(** ** The iterator's operations where their assertions hold *)

Section IteratorSteps.

Import ArrayIterator.

Lemma make_Ok (p : pointer) (s pos : Z) :
  ArrayRef.valid (ArrayRef.mk_ref p s) = true -> 0 <= pos <= s ->
  make p s pos = Ok (mk p pos s).
Proof.
  unfold ArrayRef.valid, make; simpl. intros Hv Hp.
  rewrite (assert_true _ _ Hv); simpl.
  rewrite assert_true by lia; simpl.
  rewrite assert_true by lia; simpl.
  reflexivity.
Qed.

Lemma operator_add_assign_Ok (it : array_iterator) (n : Z) :
  size_ it <= PTRDIFF_MAX -> 0 <= pos_ it + n <= size_ it ->
  operator_add_assign it n = Ok (mk (ptr_ it) (pos_ it + n) (size_ it)).
Proof.
  intros Hs Hn. unfold operator_add_assign, ptrdiff_add.
  rewrite wrap_representable by (unfold representable, PTRDIFF_MIN; lia).
  rewrite !assert_true by lia. reflexivity.
Qed.

Lemma operator_plus_Ok (it : array_iterator) (n : Z) :
  size_ it <= PTRDIFF_MAX -> 0 <= pos_ it + n <= size_ it ->
  operator_plus it n = Ok (mk (ptr_ it) (pos_ it + n) (size_ it)).
Proof.
  intros Hs Hn. unfold operator_plus.
  now rewrite operator_add_assign_Ok.
Qed.

Lemma operator_sub_assign_Ok (it : array_iterator) (n : Z) :
  size_ it <= PTRDIFF_MAX -> 0 <= pos_ it - n <= size_ it ->
  operator_sub_assign it n = Ok (mk (ptr_ it) (pos_ it - n) (size_ it)).
Proof.
  intros Hs Hn. unfold operator_sub_assign, ptrdiff_sub.
  rewrite wrap_representable by (unfold representable, PTRDIFF_MIN; lia).
  rewrite !assert_true by lia. reflexivity.
Qed.

Lemma operator_minus_Ok (it : array_iterator) (n : Z) :
  size_ it <= PTRDIFF_MAX -> 0 <= pos_ it - n <= size_ it ->
  operator_minus it n = Ok (mk (ptr_ it) (pos_ it - n) (size_ it)).
Proof.
  intros Hs Hn. unfold operator_minus.
  now rewrite operator_sub_assign_Ok.
Qed.

Lemma operator_diff_Ok (a b : array_iterator) :
  ptr_ a = ptr_ b -> representable (pos_ a - pos_ b) ->
  operator_diff a b = Ok (pos_ a - pos_ b).
Proof.
  intros Hp Hr. unfold operator_diff, ptrdiff_sub.
  rewrite Hp, ptr_eqb_refl; simpl. now rewrite wrap_representable.
Qed.

End IteratorSteps.

(** ** Views that satisfy the constructors' assertion *)

Section ViewSteps.

Import ArrayIterator ArrayRef.

Lemma valid_size_nonneg (v : array_ref) : valid v = true -> 0 <= size_ v.
Proof.
  unfold valid. intros H.
  apply orb_true_iff in H as [H|H]; apply andb_true_iff in H as [_ H]; lia.
Qed.

Lemma valid_nonempty_not_null (v : array_ref) :
  valid v = true -> 0 < size_ v -> data_ v <> nullptr.
Proof.
  unfold valid. intros H Hs.
  apply orb_true_iff in H as [H|H]; apply andb_true_iff in H as [H1 H2].
  - lia.
  - apply negb_true_iff in H1. now apply ptr_eqb_neq.
Qed.

Lemma valid_shift (p : pointer) (s k s' : Z) :
  valid (mk_ref p s) = true -> 0 <= k -> 0 <= s' -> k + s' <= s ->
  valid (mk_ref (ptr_add p k) s') = true.
Proof.
  unfold valid; simpl. intros H Hk Hs' Hle. rewrite ptr_add_null.
  apply orb_true_iff in H as [H|H]; apply andb_true_iff in H as [H1 H2].
  - rewrite H1; simpl. replace s' with 0 by lia. reflexivity.
  - rewrite H1; simpl. apply orb_true_iff. right. lia.
Qed.

Lemma begin_Ok (v : array_ref) :
  valid v = true -> begin v = Ok (mk (data_ v) 0 (size_ v)).
Proof.
  intros H. unfold begin. apply make_Ok.
  - now destruct v.
  - pose proof (valid_size_nonneg v H). lia.
Qed.

Lemma end_Ok (v : array_ref) :
  valid v = true -> end_ v = Ok (mk (data_ v) (size_ v) (size_ v)).
Proof.
  intros H. unfold end_. apply make_Ok.
  - now destruct v.
  - pose proof (valid_size_nonneg v H). lia.
Qed.

Lemma of_iterators_Ok (p : pointer) (s a b : Z) :
  valid (mk_ref p s) = true -> s <= PTRDIFF_MAX -> 0 <= a -> a <= b -> b <= s ->
  of_iterators (mk p a s) (mk p b s) = Ok (mk_ref (ptr_add p a) (b - a)).
Proof.
  intros Hv Hs Ha Hab Hb. unfold of_iterators.
  rewrite operator_diff_Ok; simpl;
    [| reflexivity | unfold representable, PTRDIFF_MIN; lia].
  unfold ptr; simpl.
  rewrite assert_true; [reflexivity |].
  apply (valid_shift p s); auto; lia.
Qed.

Lemma Min_spec (x y : Z) : Min x y = Z.min x y.
Proof. unfold Min. destruct (Z.ltb_spec y x); lia. Qed.

Lemma take_front_Ok (v : array_ref) (n : Z) :
  well_formed v -> 0 <= n ->
  take_front v n = Ok (mk_ref (data_ v) (Z.min n (size_ v))).
Proof.
  intros [Hv Hs] Hn. pose proof (valid_size_nonneg v Hv) as H0.
  unfold take_front, size. rewrite Min_spec, begin_Ok by assumption. simpl.
  rewrite operator_plus_Ok by (simpl; lia). simpl.
  destruct v as [p s]; simpl in *.
  rewrite of_iterators_Ok by (auto; lia).
  now rewrite ptr_add_0, Z.sub_0_r.
Qed.

Lemma take_back_Ok (v : array_ref) (n : Z) :
  well_formed v -> 0 <= n ->
  take_back v n =
  Ok (mk_ref (ptr_add (data_ v) (size_ v - Z.min n (size_ v)))
             (Z.min n (size_ v))).
Proof.
  intros [Hv Hs] Hn. pose proof (valid_size_nonneg v Hv) as H0.
  unfold take_back, size. rewrite Min_spec, end_Ok by assumption. simpl.
  rewrite operator_minus_Ok by (simpl; lia). simpl.
  destruct v as [p s]; simpl in *.
  rewrite of_iterators_Ok by (auto; lia).
  f_equal. f_equal. lia.
Qed.

Lemma drop_front_Ok (v : array_ref) (n : Z) :
  well_formed v -> 0 <= n ->
  drop_front v n =
  Ok (mk_ref (ptr_add (data_ v) (Z.min n (size_ v)))
             (size_ v - Z.min n (size_ v))).
Proof.
  intros [Hv Hs] Hn. pose proof (valid_size_nonneg v Hv) as H0.
  unfold drop_front, size. rewrite Min_spec, begin_Ok by assumption. simpl.
  rewrite operator_plus_Ok by (simpl; lia). simpl.
  rewrite end_Ok by assumption. simpl.
  destruct v as [p s]; simpl in *.
  now rewrite of_iterators_Ok by (auto; lia).
Qed.

Lemma drop_back_Ok (v : array_ref) (n : Z) :
  well_formed v -> 0 <= n ->
  drop_back v n = Ok (mk_ref (data_ v) (size_ v - Z.min n (size_ v))).
Proof.
  intros [Hv Hs] Hn. pose proof (valid_size_nonneg v Hv) as H0.
  unfold drop_back, size. rewrite Min_spec, begin_Ok by assumption. simpl.
  rewrite end_Ok by assumption. simpl.
  rewrite operator_minus_Ok by (simpl; lia). simpl.
  destruct v as [p s]; simpl in *.
  rewrite of_iterators_Ok by (auto; lia).
  now rewrite ptr_add_0, Z.sub_0_r.
Qed.

Lemma well_formed_shift (v : array_ref) (k s' : Z) :
  well_formed v -> 0 <= k -> 0 <= s' -> k + s' <= size_ v ->
  well_formed (mk_ref (ptr_add (data_ v) k) s').
Proof.
  intros [Hv Hs] Hk Hs' Hle. split; simpl; [| lia].
  destruct v as [p s]; simpl in *. now apply (valid_shift p s).
Qed.

End ViewSteps.

(** ** Views that fail the constructors' assertion *)

Section InvalidViews.

Import ArrayIterator ArrayRef.

Lemma make_invalid (p : pointer) (s pos : Z) :
  valid (mk_ref p s) = false -> make p s pos = AssertionFailed range_assertion.
Proof.
  unfold valid, make; simpl. intros H. now rewrite (assert_false _ _ H).
Qed.

Lemma begin_invalid (v : array_ref) :
  valid v = false -> begin v = AssertionFailed range_assertion.
Proof. destruct v. apply make_invalid. Qed.

Lemma end_invalid (v : array_ref) :
  valid v = false -> end_ v = AssertionFailed range_assertion.
Proof. destruct v. apply make_invalid. Qed.

Lemma take_front_invalid (v : array_ref) (n : Z) :
  valid v = false -> take_front v n = AssertionFailed range_assertion.
Proof. intros H. unfold take_front. now rewrite begin_invalid. Qed.

Lemma drop_front_invalid (v : array_ref) (n : Z) :
  valid v = false -> drop_front v n = AssertionFailed range_assertion.
Proof. intros H. unfold drop_front. now rewrite begin_invalid. Qed.

End InvalidViews.

(** ** Sub-ranges *)

Import ArrayIterator ArrayRef.

Lemma subarray_Ok (v : array_ref) (first last : Z) :
  well_formed v -> 0 <= first -> 0 <= last ->
  subarray v first last =
  Ok (mk_ref (ptr_add (data_ v) (Z.min first (Z.min last (size_ v))))
             (Z.min last (size_ v) - Z.min first (Z.min last (size_ v)))).
Proof.
  intros Hwf Hf Hl. pose proof Hwf as [Hv Hs].
  pose proof (valid_size_nonneg v Hv) as H0.
  unfold subarray. rewrite take_front_Ok by assumption. simpl.
  rewrite drop_front_Ok; simpl; [reflexivity | | assumption].
  rewrite <- (ptr_add_0 (data_ v)).
  apply well_formed_shift; auto; lia.
Qed.

Lemma slice_Ok (v : array_ref) (first n : Z) :
  well_formed v -> 0 <= first -> 0 <= n ->
  slice v first n =
  Ok (mk_ref (ptr_add (data_ v) (Z.min first (size_ v)))
             (Z.min n (size_ v - Z.min first (size_ v)))).
Proof.
  intros Hwf Hf Hn. pose proof Hwf as [Hv Hs].
  pose proof (valid_size_nonneg v Hv) as H0.
  unfold slice. rewrite drop_front_Ok by assumption. simpl.
  rewrite take_front_Ok; simpl; [reflexivity | | assumption].
  apply well_formed_shift; auto; lia.
Qed.

(** With non-negative arguments the two compositions give the same view for
    every [n], also beyond the end of the view ([first + n] is the
    mathematical sum). *)
Lemma slice_subarray_agree (v : array_ref) (first n : Z) :
  well_formed v -> 0 <= first -> 0 <= n ->
  slice v first n = subarray v first (first + n).
Proof.
  intros Hwf Hf Hn. pose proof Hwf as [Hv Hs].
  pose proof (valid_size_nonneg v Hv) as H0.
  rewrite slice_Ok, subarray_Ok by (auto; lia).
  f_equal. f_equal; [f_equal |]; lia.
Qed.

(** C2. For a view of non-negative size and non-negative [first] and [n]:
    [slice(first, n)] equals [subarray(first, first + n)] whenever
    [first + n <= size()]; [slice(first, n)] is
    [drop_front(first).take_front(n)], so [n] is clamped against
    [size - min(first, size)], what is left after dropping; and
    [subarray(first, last)] is [take_front(last).drop_front(first)], so [last]
    is clamped against the original size before [first] is dropped. *)
Theorem slice_subarray_clamping (v : array_ref) (first n : Z) :
  0 <= size v <= PTRDIFF_MAX -> 0 <= first -> 0 <= n ->
  (first + n <= size v -> slice v first n = subarray v first (first + n))
  /\ slice v first n = (d <- drop_front v first ;; take_front d n)
  /\ (forall last : Z,
        subarray v first last = (t <- take_front v last ;; drop_front t first))
  /\ (valid v = true ->
      slice v first n =
        Ok (mk_ref (ptr_add (data v) (Z.min first (size v)))
                   (Z.min n (size v - Z.min first (size v))))
      /\ forall last : Z, 0 <= last ->
           subarray v first last =
             Ok (mk_ref (ptr_add (data v) (Z.min first (Z.min last (size v))))
                        (Z.min last (size v) - Z.min first (Z.min last (size v))))).
Proof.
  unfold size, data. intros Hs Hf Hn. repeat split.
  - intros Hle. destruct (valid v) eqn:Hv.
    + rewrite slice_Ok, subarray_Ok by (try split; auto; lia).
      f_equal. f_equal; [f_equal |]; lia.
    + unfold slice, subarray.
      now rewrite drop_front_invalid, take_front_invalid.
  - apply slice_Ok; [split |..]; auto; lia.
  - intros last Hl. apply subarray_Ok; [split |..]; auto; lia.
Qed.

Lemma slice_subarray_clamping_witness :
  slice (mk_ref (Ptr 1 0) 5) 3 10 = Ok (mk_ref (Ptr 1 3) 2)
  /\ subarray (mk_ref (Ptr 1 0) 5) 3 13 = Ok (mk_ref (Ptr 1 3) 2)
  /\ slice (mk_ref (Ptr 1 0) 5) 1 2 = subarray (mk_ref (Ptr 1 0) 5) 1 (1 + 2).
Proof.
  pose proof (slice_subarray_clamping (mk_ref (Ptr 1 0) 5) 3 10) as H.
  pose proof (slice_subarray_clamping (mk_ref (Ptr 1 0) 5) 1 2) as H'.
  unfold size, PTRDIFF_MAX in H, H'. simpl in H, H'.
  destruct H as (_ & _ & _ & H); [lia | lia | lia |].
  destruct H' as (H' & _); [lia | lia | lia |].
  destruct (H eq_refl) as [Hs Hsub].
  split; [| split].
  - exact Hs.
  - apply (Hsub 13). lia.
  - apply H'. lia.
Defined.

(** C3. For a view of non-negative size and non-negative [first] and [last]:
    [subarray(first, last)] with [last > size()] gives what
    [subarray(first, size())] gives, and when [first] is at least the clamped
    [last] the result is an empty view, returned without any assertion
    failing. *)
Theorem subarray_clamps_last (v : array_ref) (first last : Z) :
  0 <= size v <= PTRDIFF_MAX -> 0 <= first -> 0 <= last ->
  (size v < last -> subarray v first last = subarray v first (size v))
  /\ (valid v = true -> Z.min last (size v) <= first ->
      exists w : array_ref,
        subarray v first last = Ok w /\ size w = 0 /\ empty w = true).
Proof.
  unfold size. intros Hs Hf Hl. split.
  - intros Hlt. destruct (valid v) eqn:Hv.
    + rewrite !subarray_Ok by (try split; auto; lia).
      f_equal. f_equal; [f_equal |]; lia.
    + unfold subarray. now rewrite !take_front_invalid.
  - intros Hv Hle. eexists. split; [apply subarray_Ok; try split; auto; lia |].
    unfold empty; simpl. split; [lia |]. apply Z.eqb_eq. lia.
Qed.

Lemma subarray_clamps_last_witness :
  subarray (mk_ref (Ptr 1 0) 5) 3 13 = subarray (mk_ref (Ptr 1 0) 5) 3 5
  /\ exists w : array_ref,
       subarray (mk_ref (Ptr 1 0) 5) 4 2 = Ok w /\ size w = 0 /\ empty w = true.
Proof.
  pose proof (subarray_clamps_last (mk_ref (Ptr 1 0) 5) 3 13) as H.
  pose proof (subarray_clamps_last (mk_ref (Ptr 1 0) 5) 4 2) as H'.
  unfold size, PTRDIFF_MAX in H, H'. simpl in H, H'.
  destruct H as (H & _); [lia | lia | lia |].
  destruct H' as (_ & H'); [lia | lia | lia |].
  split.
  - apply H. lia.
  - apply H'; [reflexivity | lia].
Defined.

(** C4. For a view [v] and [0 <= k <= n <= v.size()]:
    [v.take_front(n).drop_front(k)] is the view of length [n - k] whose data
    pointer is [v.data() + k]. *)
Theorem take_front_drop_front (v : array_ref) (k n : Z) :
  well_formed v -> 0 <= k -> k <= n -> n <= size v ->
  (t <- take_front v n ;; drop_front t k)
  = Ok (mk_ref (ptr_add (data v) k) (n - k)).
Proof.
  unfold size, data. intros Hwf Hk Hkn Hn.
  change (subarray v k n = Ok (mk_ref (ptr_add (data_ v) k) (n - k))).
  rewrite subarray_Ok by (auto; lia).
  f_equal. f_equal; [f_equal |]; lia.
Qed.

Lemma take_front_drop_front_witness :
  (t <- take_front (mk_ref (Ptr 1 0) 10) 7 ;; drop_front t 3)
  = Ok (mk_ref (Ptr 1 3) 4).
Proof.
  apply (take_front_drop_front (mk_ref (Ptr 1 0) 10) 3 7).
  - split; [reflexivity | unfold PTRDIFF_MAX; simpl; lia].
  - lia.
  - lia.
  - unfold size; simpl. lia.
Defined.

(** ** Iterators of a view *)

(** C5. For a view [v] that satisfies its constructors' assertion:
    [v.end() - v.begin() == v.size()], and for every [0 <= i < v.size()] the
    expressions [v[i]], [*(v.begin() + i)] and [v.begin()[i]] all denote the
    element at address [v.data() + i]. *)
Theorem begin_end_span_and_index (v : array_ref) :
  well_formed v ->
  (e <- end_ v ;; b <- begin v ;; operator_diff e b) = Ok (size v)
  /\ forall i : Z, 0 <= i < size v ->
       ArrayRef.operator_index v i = Ok (ptr_add (data v) i)
       /\ (b <- begin v ;; c <- operator_plus b i ;; operator_deref c)
          = Ok (ptr_add (data v) i)
       /\ (b <- begin v ;; ArrayIterator.operator_index b i)
          = Ok (ptr_add (data v) i).
Proof.
  unfold size, data. intros [Hv Hs].
  pose proof (valid_size_nonneg v Hv) as H0. split.
  - rewrite end_Ok, begin_Ok by assumption. simpl.
    rewrite operator_diff_Ok; simpl;
      [f_equal; lia | reflexivity | unfold representable, PTRDIFF_MIN; lia].
  - intros i Hi.
    assert (Hnn : ptr_eqb (data_ v) nullptr = false).
    { apply ptr_eqb_neq. apply valid_nonempty_not_null; [assumption | lia]. }
    split; [| split].
    + unfold ArrayRef.operator_index.
      rewrite !assert_true by lia. reflexivity.
    + rewrite begin_Ok by assumption. simpl.
      rewrite operator_plus_Ok by (simpl; lia). simpl.
      unfold operator_deref; simpl. rewrite Hnn; simpl.
      rewrite assert_true by lia. reflexivity.
    + rewrite begin_Ok by assumption. simpl.
      unfold ArrayIterator.operator_index, ptrdiff_add; simpl. rewrite Hnn; simpl.
      rewrite wrap_representable by (unfold representable, PTRDIFF_MIN; lia).
      rewrite !assert_true by lia. reflexivity.
Qed.

Lemma begin_end_span_and_index_witness :
  (e <- end_ (mk_ref (Ptr 1 0) 10) ;; b <- begin (mk_ref (Ptr 1 0) 10) ;;
   operator_diff e b) = Ok 10
  /\ ArrayRef.operator_index (mk_ref (Ptr 1 0) 10) 9 = Ok (Ptr 1 9)
  /\ (b <- begin (mk_ref (Ptr 1 0) 10) ;; c <- operator_plus b 9 ;;
      operator_deref c) = Ok (Ptr 1 9)
  /\ (b <- begin (mk_ref (Ptr 1 0) 10) ;; ArrayIterator.operator_index b 9)
     = Ok (Ptr 1 9).
Proof.
  destruct (begin_end_span_and_index (mk_ref (Ptr 1 0) 10)) as [Hspan Hidx].
  - split; [reflexivity | unfold PTRDIFF_MAX; simpl; lia].
  - split; [exact Hspan |].
    apply (Hidx 9). unfold size; simpl. lia.
Defined.

(** C6. For iterators [a] and [b] of the same view: [a < b] holds exactly when
    the position of [a] is less than the position of [b]; for every [n] with
    [a + n] in range, [(a + n) - a == n]; and when [a] is not at the beginning,
    [++(--a)] is [a] again and compares equal to it. *)
Theorem iterator_order_and_arithmetic (v : array_ref) (a b : array_iterator) :
  well_formed v -> iterator_of v a -> iterator_of v b ->
  operator_lt a b = Ok (pos_ a <? pos_ b)
  /\ (operator_lt a b = Ok true <-> pos_ a < pos_ b)
  /\ (forall n : Z, 0 <= pos_ a + n <= size v ->
        (c <- operator_plus a n ;; operator_diff c a) = Ok n)
  /\ (0 < pos_ a ->
      (d <- operator_predec a ;; operator_preinc d) = Ok a
      /\ (d <- operator_predec a ;; i <- operator_preinc d ;;
          ArrayIterator.operator_eq i a) = Ok true).
Proof.
  unfold size. intros [Hv Hs] (Hpa & Hsa & Hposa) (Hpb & Hsb & Hposb).
  assert (Hlt : operator_lt a b = Ok (pos_ a <? pos_ b)).
  { unfold operator_lt. now rewrite Hpa, Hpb, ptr_eqb_refl. }
  split; [exact Hlt |]. split; [| split].
  - rewrite Hlt. split.
    + intros H. injection H as H. lia.
    + intros H. f_equal. lia.
  - intros n Hn.
    rewrite operator_plus_Ok by lia. simpl.
    rewrite operator_diff_Ok; simpl; [f_equal; lia | reflexivity | range].
  - intros Hpos.
    assert (Hdec : operator_predec a = Ok (mk (ptr_ a) (pos_ a - 1) (ArrayIterator.size_ a))).
    { unfold operator_predec, ptrdiff_sub. rewrite assert_true by lia. simpl.
      now rewrite wrap_representable by range. }
    assert (Hinc : operator_preinc (mk (ptr_ a) (pos_ a - 1) (ArrayIterator.size_ a)) = Ok a).
    { unfold operator_preinc, ptrdiff_add; simpl. rewrite assert_true by lia.
      simpl. rewrite wrap_representable by range.
      destruct a; simpl. f_equal. f_equal. lia. }
    rewrite Hdec; simpl. rewrite Hinc; simpl. split; [reflexivity |].
    unfold ArrayIterator.operator_eq. now rewrite ptr_eqb_refl, Z.eqb_refl.
Qed.

Lemma iterator_order_and_arithmetic_witness :
  operator_lt (mk (Ptr 1 0) 2 10) (mk (Ptr 1 0) 7 10) = Ok true
  /\ (c <- operator_plus (mk (Ptr 1 0) 2 10) 5 ;;
      operator_diff c (mk (Ptr 1 0) 2 10)) = Ok 5
  /\ (d <- operator_predec (mk (Ptr 1 0) 2 10) ;; operator_preinc d)
     = Ok (mk (Ptr 1 0) 2 10).
Proof.
  destruct (iterator_order_and_arithmetic (mk_ref (Ptr 1 0) 10)
              (mk (Ptr 1 0) 2 10) (mk (Ptr 1 0) 7 10))
    as (Hlt & _ & Hadd & Hrt).
  - split; [reflexivity | unfold PTRDIFF_MAX; simpl; lia].
  - unfold iterator_of; simpl. repeat split; lia.
  - unfold iterator_of; simpl. repeat split; lia.
  - split; [exact Hlt | split].
    + apply Hadd. unfold size; simpl. lia.
    + apply Hrt. simpl. lia.
Defined.

(** ** Equality of views *)

(** C7. Two views compare equal exactly when they have the same data address
    and the same size; the elements are never looked at, so views of
    different sizes or of different storage are unequal even when they
    denote equal elements, and a view cut down to a shorter sub-range is
    unequal to the view it was cut from. *)
Theorem view_equality_is_identity (lhs rhs : array_ref) :
  (ArrayRef.operator_eq lhs rhs = true <->
   data lhs = data rhs /\ size lhs = size rhs)
  /\ operator_ne lhs rhs = negb (ArrayRef.operator_eq lhs rhs)
  /\ (size lhs <> size rhs -> ArrayRef.operator_eq lhs rhs = false)
  /\ (data lhs <> data rhs -> ArrayRef.operator_eq lhs rhs = false)
  /\ (forall n : Z, well_formed rhs -> 0 <= n < size rhs ->
        exists w : array_ref,
          take_front rhs n = Ok w /\ data w = data rhs
          /\ ArrayRef.operator_eq w rhs = false)
  /\ (exists (m : pointer -> Z) (l r : array_ref),
        elements m l = elements m r /\ l <> r
        /\ ArrayRef.operator_eq l r = false).
Proof.
  assert (Hiff : forall l r : array_ref,
             ArrayRef.operator_eq l r = true <->
             data l = data r /\ size l = size r).
  { intros l r. unfold ArrayRef.operator_eq.
    rewrite andb_true_iff, ptr_eqb_eq, Z.eqb_eq. tauto. }
  assert (Hneq : forall l r : array_ref,
             data l <> data r \/ size l <> size r ->
             ArrayRef.operator_eq l r = false).
  { intros l r H. destruct (ArrayRef.operator_eq l r) eqn:E; [| reflexivity].
    apply Hiff in E. tauto. }
  split; [apply Hiff |]. split; [reflexivity |].
  split; [intros H; apply Hneq; now right |].
  split; [intros H; apply Hneq; now left |]. split.
  - intros n Hwf Hn. eexists. split; [apply take_front_Ok; [assumption | lia] |].
    split; [reflexivity |]. apply Hneq. right. unfold size in *; simpl. lia.
  - exists (fun _ => 0), (mk_ref (Ptr 1 0) 2), (mk_ref (Ptr 2 0) 2).
    split; [reflexivity |]. split; [discriminate | reflexivity].
Qed.

Lemma view_equality_is_identity_witness :
  ArrayRef.operator_eq (mk_ref (Ptr 1 0) 3) (mk_ref (Ptr 1 0) 10) = false
  /\ exists w : array_ref,
       take_front (mk_ref (Ptr 1 0) 10) 3 = Ok w
       /\ data w = Ptr 1 0
       /\ ArrayRef.operator_eq w (mk_ref (Ptr 1 0) 10) = false.
Proof.
  destruct (view_equality_is_identity (mk_ref (Ptr 1 0) 3) (mk_ref (Ptr 1 0) 10))
    as (_ & _ & Hsize & _ & Hcut & _).
  split.
  - apply Hsize. unfold size; simpl. lia.
  - apply (Hcut 3).
    + split; [reflexivity | unfold PTRDIFF_MAX; simpl; lia].
    + unfold size; simpl. lia.
Defined.

(** ** Construction of an iterator *)

(** C8, as stated, fails: a non-null pointer together with length 0 violates
    "pointer is null iff length == 0", and the constructor accepts it. *)
Lemma nonnull_empty_iterator_accepted :
  ~ (forall (p : pointer) (s pos : Z),
       ~ (0 <= pos <= s /\ 0 <= s /\ (p = nullptr <-> s = 0)) ->
       exists c : string, make p s pos = AssertionFailed c).
Proof.
  intros H. destruct (H (Ptr 1 0) 0 0) as [c Hc].
  - intros (_ & _ & [_ Hnull]). discriminate (Hnull eq_refl).
  - discriminate Hc.
Qed.

(** C8, amended. Constructing an iterator from (pointer, length, position)
    has the precondition: position in [[0, length]] (so length >= 0) and a
    null pointer comes with length 0; a non-null pointer may come with
    length 0. In the debug build the constructor returns the iterator when
    the precondition holds and an assertion fails when it does not. *)
Theorem make_precondition (p : pointer) (s pos : Z) :
  (0 <= pos <= s /\ (p = nullptr -> s = 0) -> make p s pos = Ok (mk p pos s))
  /\ (~ (0 <= pos <= s /\ (p = nullptr -> s = 0)) ->
      exists c : string, make p s pos = AssertionFailed c).
Proof.
  split.
  - intros [Hpos Hnull]. apply make_Ok; [| assumption].
    unfold valid; simpl. destruct p as [|b o]; simpl.
    + rewrite (Hnull eq_refl). reflexivity.
    + lia.
  - intros Hno. unfold make; simpl.
    destruct (ptr_eqb p nullptr && (s =? 0)
              || negb (ptr_eqb p nullptr) && (s >=? 0)) eqn:Hv; simpl;
      [| eexists; reflexivity].
    destruct (pos >=? 0) eqn:H0; simpl; [| eexists; reflexivity].
    destruct (pos <=? s) eqn:H1; simpl; [| eexists; reflexivity].
    exfalso. apply Hno. split; [lia |].
    intros ->. simpl in Hv. lia.
Qed.

Lemma make_precondition_witness :
  make (Ptr 1 0) 0 0 = Ok (mk (Ptr 1 0) 0 0)
  /\ exists c : string, make nullptr 1 0 = AssertionFailed c.
Proof.
  split.
  - apply (make_precondition (Ptr 1 0) 0 0). split; [lia | discriminate].
  - apply (make_precondition nullptr 1 0). intros [_ H].
    discriminate (H eq_refl).
Defined.

(** ** Sub-ranges stay inside the view *)

Lemma within_shift (v : array_ref) (k s' : Z) :
  0 <= k <= size_ v -> 0 <= s' -> k + s' <= size_ v ->
  within v (mk_ref (ptr_add (data_ v) k) s').
Proof. intros Hk Hs' Hle. exists k. simpl. auto. Qed.

Lemma within_same_start (v : array_ref) (s' : Z) :
  0 <= s' <= size_ v -> within v (mk_ref (data_ v) s').
Proof.
  intros H. exists 0. simpl. rewrite ptr_add_0.
  repeat split; lia.
Qed.

Lemma well_formed_same_start (v : array_ref) (s' : Z) :
  well_formed v -> 0 <= s' <= size_ v -> well_formed (mk_ref (data_ v) s').
Proof.
  intros Hwf H. rewrite <- (ptr_add_0 (data_ v)).
  apply well_formed_shift; auto; lia.
Qed.

(** C9. Every sub-range operation ([take_front], [take_back], [drop_front],
    [drop_back], [subarray], [slice]) applied with non-negative arguments to
    a view with data [d] and size [s >= 0] returns a view contained in the
    original: its data pointer is [d + k] for some [0 <= k <= s], its size
    [s'] is non-negative and [k + s' <= s]; the returned view again satisfies
    the constructors' assertion. *)
Theorem subranges_within (v : array_ref) (n m : Z) :
  well_formed v -> 0 <= n -> 0 <= m ->
  (exists w, take_front v n = Ok w /\ within v w /\ well_formed w)
  /\ (exists w, take_back v n = Ok w /\ within v w /\ well_formed w)
  /\ (exists w, drop_front v n = Ok w /\ within v w /\ well_formed w)
  /\ (exists w, drop_back v n = Ok w /\ within v w /\ well_formed w)
  /\ (exists w, subarray v n m = Ok w /\ within v w /\ well_formed w)
  /\ (exists w, slice v n m = Ok w /\ within v w /\ well_formed w)
  /\ (exists w, subarray_from v n = Ok w /\ within v w /\ well_formed w)
  /\ (exists w, slice_from v n = Ok w /\ within v w /\ well_formed w).
Proof.
  intros Hwf Hn Hm. pose proof Hwf as [Hv Hs].
  pose proof (valid_size_nonneg v Hv) as H0.
  assert (Hdrop : exists w, drop_front v n = Ok w /\ within v w /\ well_formed w).
  { eexists. split; [now apply drop_front_Ok |].
    split; [apply within_shift | apply well_formed_shift]; auto; lia. }
  assert (Htake : exists w, take_front v n = Ok w /\ within v w /\ well_formed w).
  { eexists. split; [now apply take_front_Ok |].
    split; [apply within_same_start | apply well_formed_same_start]; auto; lia. }
  assert (Hback : exists w, take_back v n = Ok w /\ within v w /\ well_formed w).
  { eexists. split; [now apply take_back_Ok |].
    split; [apply within_shift | apply well_formed_shift]; auto; lia. }
  assert (Hdropb : exists w, drop_back v n = Ok w /\ within v w /\ well_formed w).
  { eexists. split; [now apply drop_back_Ok |].
    split; [apply within_same_start | apply well_formed_same_start]; auto; lia. }
  assert (Hsub : exists w, subarray v n m = Ok w /\ within v w /\ well_formed w).
  { eexists. split; [now apply subarray_Ok |].
    split; [apply within_shift | apply well_formed_shift]; auto; lia. }
  assert (Hslice : exists w, slice v n m = Ok w /\ within v w /\ well_formed w).
  { eexists. split; [now apply slice_Ok |].
    split; [apply within_shift | apply well_formed_shift]; auto; lia. }
  exact (conj Htake (conj Hback (conj Hdrop (conj Hdropb
           (conj Hsub (conj Hslice (conj Hdrop Hdrop))))))).
Qed.

Lemma subranges_within_witness :
  (exists w, take_back (mk_ref (Ptr 1 0) 10) 3 = Ok w
             /\ within (mk_ref (Ptr 1 0) 10) w /\ well_formed w)
  /\ (exists w, slice (mk_ref (Ptr 1 0) 10) 3 20 = Ok w
                /\ within (mk_ref (Ptr 1 0) 10) w /\ well_formed w).
Proof.
  destruct (subranges_within (mk_ref (Ptr 1 0) 10) 3 20)
    as (_ & Hback & _ & _ & _ & Hslice & _).
  - split; [reflexivity | unfold PTRDIFF_MAX; simpl; lia].
  - lia.
  - lia.
  - split; assumption.
Defined.

(** ** Negative counts *)

Lemma Min_negative (n s : Z) : n < 0 -> 0 <= s -> Min n s = n.
Proof. intros. rewrite Min_spec. lia. Qed.

Lemma operator_plus_negative (p : pointer) (s n : Z) :
  representable n -> n < 0 ->
  operator_plus (mk p 0 s) n = AssertionFailed "pos_ + n >= 0".
Proof.
  intros Hr Hn. unfold operator_plus, operator_add_assign, ptrdiff_add; simpl.
  rewrite wrap_representable by assumption.
  now rewrite assert_false by lia.
Qed.

Lemma operator_minus_negative (p : pointer) (s n : Z) :
  0 <= s <= PTRDIFF_MAX -> representable n -> n < 0 ->
  operator_minus (mk p s s) n =
  AssertionFailed (if s - n <=? PTRDIFF_MAX
                   then "pos_ - n <= size_" else "pos_ - n >= 0").
Proof.
  intros Hs Hr Hn. unfold operator_minus, operator_sub_assign, ptrdiff_sub; simpl.
  destruct (Z.leb_spec (s - n) PTRDIFF_MAX) as [Hfit | Hover].
  - rewrite wrap_representable by range.
    rewrite assert_true by lia. simpl. now rewrite assert_false by lia.
  - rewrite wrap_overflow by range.
    now rewrite assert_false by range.
Qed.

(** C10. The clamping is one-sided. For a view that satisfies its
    constructors' assertion (a non-empty one in particular) and a negative
    count [n], [Min] leaves [n] as it is, and [take_front(n)], [take_back(n)],
    [drop_front(n)] and [drop_back(n)] each fail an assertion of the iterator
    arithmetic on the resulting position; for every count [k >= 0] each of
    them returns a view. *)
Theorem negative_count_fails_assertion (v : array_ref) (n : Z) :
  well_formed v -> representable n -> n < 0 ->
  Min n (size v) = n
  /\ take_front v n = AssertionFailed "pos_ + n >= 0"
  /\ drop_front v n = AssertionFailed "pos_ + n >= 0"
  /\ take_back v n =
       AssertionFailed (if size v - n <=? PTRDIFF_MAX
                        then "pos_ - n <= size_" else "pos_ - n >= 0")
  /\ drop_back v n =
       AssertionFailed (if size v - n <=? PTRDIFF_MAX
                        then "pos_ - n <= size_" else "pos_ - n >= 0")
  /\ (forall k : Z, 0 <= k ->
        (exists w, take_front v k = Ok w) /\ (exists w, take_back v k = Ok w)
        /\ (exists w, drop_front v k = Ok w) /\ (exists w, drop_back v k = Ok w)).
Proof.
  unfold size. intros Hwf Hr Hn. pose proof Hwf as [Hv Hs].
  pose proof (valid_size_nonneg v Hv) as H0.
  pose proof (Min_negative n (size_ v) Hn H0) as HMin.
  split; [exact HMin |]. split; [| split; [| split; [| split]]].
  - unfold take_front, size. rewrite HMin, begin_Ok by assumption. simpl.
    now rewrite operator_plus_negative.
  - unfold drop_front, size. rewrite HMin, begin_Ok by assumption. simpl.
    now rewrite operator_plus_negative.
  - unfold take_back, size. rewrite HMin, end_Ok by assumption. simpl.
    now rewrite operator_minus_negative by (auto; lia).
  - unfold drop_back, size. rewrite HMin, begin_Ok, end_Ok by assumption. simpl.
    now rewrite operator_minus_negative by (auto; lia).
  - intros k Hk. split; [| split; [| split]]; eexists.
    + now apply take_front_Ok.
    + now apply take_back_Ok.
    + now apply drop_front_Ok.
    + now apply drop_back_Ok.
Qed.

Lemma negative_count_fails_assertion_witness :
  take_front (mk_ref (Ptr 1 0) 10) (-1) = AssertionFailed "pos_ + n >= 0"
  /\ take_back (mk_ref (Ptr 1 0) 10) (-1) = AssertionFailed "pos_ - n <= size_"
  /\ drop_front (mk_ref (Ptr 1 0) 10) (-1) = AssertionFailed "pos_ + n >= 0"
  /\ drop_back (mk_ref (Ptr 1 0) 10) (-1) = AssertionFailed "pos_ - n <= size_".
Proof.
  destruct (negative_count_fails_assertion (mk_ref (Ptr 1 0) 10) (-1))
    as (_ & Htf & Hdf & Htb & Hdb & _).
  - split; [reflexivity | unfold PTRDIFF_MAX; simpl; lia].
  - unfold representable, PTRDIFF_MIN, PTRDIFF_MAX. lia.
  - lia.
  - exact (conj Htf (conj Htb (conj Hdf Hdb))).
Defined.

(** ** Conversions between element types *)

Lemma cv_type_eqb_eq (a b : cv_type) : cv_type_eqb a b = true <-> a = b.
Proof.
  destruct a as [na ca va], b as [nb cb vb]. unfold cv_type_eqb; simpl.
  rewrite !andb_true_iff, String.eqb_eq, !Bool.eqb_true_iff.
  split.
  - intros [[-> ->] ->]. reflexivity.
  - intros H. injection H as -> -> ->. auto.
Qed.

Lemma is_array_convertible_refl (T : cv_type) : is_array_convertible T T = true.
Proof.
  unfold is_array_convertible.
  rewrite String.eqb_refl. now destruct (is_const T), (is_volatile T).
Qed.

Lemma is_array_convertible_spec (U T : cv_type) :
  is_array_convertible U T = true <->
  unqualified U = unqualified T
  /\ (is_const U = true -> is_const T = true)
  /\ (is_volatile U = true -> is_volatile T = true).
Proof.
  unfold is_array_convertible.
  rewrite !andb_true_iff, String.eqb_eq.
  destruct (is_const U), (is_const T), (is_volatile U), (is_volatile T);
    simpl; intuition congruence.
Qed.

Lemma converting_Some (U T : cv_type) (it : array_iterator) :
  is_array_convertible U T = true -> converting U T it = Some it.
Proof. unfold converting. intros ->. now destruct it. Qed.

Lemma converting_None (U T : cv_type) (it : array_iterator) :
  is_array_convertible U T = false -> converting U T it = None.
Proof. unfold converting. now intros ->. Qed.

Lemma convert_Some_iff (cat : value_category) (cst : bool) (U T : cv_type)
    (v : array_ref) :
  (exists w, convert cat cst U T v = Some w) <->
  is_array_convertible U T = true
  /\ (U = T \/ cat = lvalue \/ cst = true \/ is_const T = true).
Proof.
  unfold convert, of_container_ref, of_container_cref, as_container; simpl.
  destruct (cv_type_eqb U T) eqn:E.
  - apply cv_type_eqb_eq in E. subst T. rewrite is_array_convertible_refl.
    split; [auto | intros _; eexists; reflexivity].
  - assert (U <> T) as Hne
      by (intros H; apply cv_type_eqb_eq in H; congruence).
    replace (if cst then U else U) with U by now destruct cst.
    destruct (is_array_convertible U T), cat, cst, (is_const T); simpl;
      (split;
       [ intros [w Hw]; first [discriminate Hw | split; [reflexivity | tauto]]
       | intros [Hc Hor]; first [discriminate Hc | eexists; reflexivity
                                | exfalso; intuition congruence] ]).
Qed.

(** The conversions Test.cc expects to compile, and those it marks ERROR. *)
Example conversions_of_the_tests :
  let int := plain "int" in
  let Base := plain "Base" in
  let Derived := plain "Derived" in
  let v := mk_ref (Ptr 1 0) 4 in
  let it := mk (Ptr 1 0) 0 4 in
  (* array_ref<const Derived> arcd = ard;   it = ard.begin(); *)
  convert lvalue false Derived (add_const Derived) v = Some v
  /\ converting Derived (add_const Derived) it = Some it
  (* array_ref<Derived> ard_ = arcd;  array_ref<Base> arb = ard;
     array_ref<const Derived> ard3 = arb2;  i3 = ard.begin();  i2 = i3; *)
  /\ convert lvalue false (add_const Derived) Derived v = None
  /\ convert lvalue false Derived Base v = None
  /\ convert lvalue false Base (add_const Derived) v = None
  /\ converting Derived Base it = None
  /\ converting Base Derived it = None
  (* i4 = i3; *)
  /\ converting Base (add_const Base) it = Some it
  (* func(v); func_const(v); func_const(cv); func_const(std::vector<int>{}); *)
  /\ of_container_ref int (std_container lvalue false int (Ptr 1 0) 4) = Some v
  /\ of_container_ref (add_const int) (std_container lvalue false int (Ptr 1 0) 4)
     = Some v
  /\ of_container_ref (add_const int) (std_container lvalue true int (Ptr 1 0) 4)
     = Some v
  /\ of_container_cref (add_const int) (std_container rvalue false int (Ptr 1 0) 4)
     = Some v
  (* func(cv);  func(std::vector<int>{}); *)
  /\ of_container_ref int (std_container lvalue true int (Ptr 1 0) 4) = None
  /\ of_container_cref int (std_container lvalue true int (Ptr 1 0) 4) = None
  /\ of_container_ref int (std_container rvalue false int (Ptr 1 0) 4) = None
  /\ of_container_cref int (std_container rvalue false int (Ptr 1 0) 4) = None
  (* array_ref<const Base> arb2 = arrd; *)
  /\ of_array (add_const Base) Derived (Ptr 1 0) 5 = None
  (* array_ref<const Derived> ard = arrd; *)
  /\ of_array (add_const Derived) Derived (Ptr 1 0) 5
     = Some (mk_ref (Ptr 1 0) 5).
Proof. cbv. repeat split. Qed.

(** C1, as stated, fails for views: [int ( * )[]] converts to
    [volatile int ( * )[]], and yet a temporary [array_ref<int>] does not
    convert to an [array_ref<volatile int>]: it cannot bind to [Rhs&], and the
    [Rhs const&] constructor is enabled for a const element type only. *)
Lemma rvalue_view_to_volatile_rejected :
  ~ (forall (cat : value_category) (cst : bool) (U T : cv_type) (v : array_ref),
       (exists w, convert cat cst U T v = Some w) <->
       is_array_convertible U T = true).
Proof.
  intros H.
  destruct (H rvalue false (plain "int") (add_volatile (plain "int"))
              (mk_ref (Ptr 1 0) 10)) as [_ Hconv].
  destruct (Hconv eq_refl) as [w Hw]. discriminate Hw.
Qed.

(** C1, amended. An iterator over element type [U] converts to an iterator
    over element type [T] exactly when [U ( * )[]] is implicitly convertible
    to [T ( * )[]]. A view over [U] converts to a view over [T] exactly when
    [U ( * )[]] is implicitly convertible to [T ( * )[]] and, unless [U] and
    [T] are the same type, the source is an lvalue or a const expression or
    [T] is const-qualified. In particular a view or an iterator of mutable [T]
    converts to one of [const T] from any source expression, while
    const-to-mutable conversions and conversions between different
    unqualified types (derived to base, base to derived, unrelated) are
    rejected: no converting constructor is a candidate. *)
Theorem conversion_by_array_convertibility
    (cat : value_category) (cst : bool) (U T : cv_type)
    (it : array_iterator) (v : array_ref) :
  ((exists it', converting U T it = Some it') <->
   is_array_convertible U T = true)
  /\ (is_array_convertible U T = true -> converting U T it = Some it)
  /\ ((exists w, convert cat cst U T v = Some w) <->
      is_array_convertible U T = true
      /\ (U = T \/ cat = lvalue \/ cst = true \/ is_const T = true))
  /\ (is_const U = false ->
      converting U (add_const U) it = Some it
      /\ exists w, convert cat cst U (add_const U) v = Some w)
  /\ (is_const U = true -> is_const T = false ->
      converting U T it = None /\ convert cat cst U T v = None)
  /\ (unqualified U <> unqualified T ->
      converting U T it = None /\ convert cat cst U T v = None).
Proof.
  assert (Hnone : is_array_convertible U T = false ->
                  converting U T it = None /\ convert cat cst U T v = None).
  { intros Hc. split; [now apply converting_None |].
    destruct (convert cat cst U T v) as [w|] eqn:E; [| reflexivity].
    assert (exists w, convert cat cst U T v = Some w) as Hex by (now exists w).
    apply convert_Some_iff in Hex as [Hex _]. congruence. }
  split; [| split; [| split; [| split; [| split]]]].
  - unfold converting. destruct (is_array_convertible U T).
    + split; [reflexivity | intros _; eexists; reflexivity].
    + split; [intros [it' H]; discriminate H | discriminate].
  - apply converting_Some.
  - apply convert_Some_iff.
  - intros Hmut.
    assert (is_array_convertible U (add_const U) = true) as Hc.
    { apply is_array_convertible_spec. simpl. auto. }
    split; [now apply converting_Some |].
    apply convert_Some_iff. split; [exact Hc |]. right. right. right. reflexivity.
  - intros HU HT. apply Hnone.
    destruct (is_array_convertible U T) eqn:E; [| reflexivity].
    apply is_array_convertible_spec in E as (_ & Hc & _).
    rewrite (Hc HU) in HT. discriminate HT.
  - intros Hne. apply Hnone.
    destruct (is_array_convertible U T) eqn:E; [| reflexivity].
    apply is_array_convertible_spec in E as (Hn & _). contradiction.
Qed.

Lemma conversion_by_array_convertibility_witness :
  (exists w, convert rvalue false (plain "Derived") (add_const (plain "Derived"))
               (mk_ref (Ptr 1 0) 5) = Some w)
  /\ convert lvalue false (add_const (plain "Derived")) (plain "Derived")
       (mk_ref (Ptr 1 0) 5) = None
  /\ converting (plain "Derived") (plain "Base") (mk (Ptr 1 0) 0 5) = None.
Proof.
  pose proof (conversion_by_array_convertibility rvalue false (plain "Derived")
                (plain "Derived") (mk (Ptr 1 0) 0 5) (mk_ref (Ptr 1 0) 5))
    as (_ & _ & _ & Hconst & _).
  pose proof (conversion_by_array_convertibility lvalue false
                (add_const (plain "Derived")) (plain "Derived")
                (mk (Ptr 1 0) 0 5) (mk_ref (Ptr 1 0) 5))
    as (_ & _ & _ & _ & Hmut & _).
  pose proof (conversion_by_array_convertibility lvalue false
                (plain "Derived") (plain "Base")
                (mk (Ptr 1 0) 0 5) (mk_ref (Ptr 1 0) 5))
    as (_ & _ & _ & _ & _ & Hbase).
  split; [| split].
  - apply (Hconst eq_refl).
  - apply (Hmut eq_refl eq_refl).
  - apply Hbase. discriminate.
Defined.

(** * Further properties of the iterator *)

(** ** Wrap-around and assertions, continued *)

Lemma wrap_add_wrap (a b : Z) : wrap (wrap a + b) = wrap (a + b).
Proof.
  unfold wrap.
  replace ((a - PTRDIFF_MIN) mod 18446744073709551616 + PTRDIFF_MIN + b
           - PTRDIFF_MIN)
    with ((a - PTRDIFF_MIN) mod 18446744073709551616 + b) by lia.
  rewrite Zplus_mod_idemp_l. do 2 f_equal. lia.
Qed.

Lemma wrap_sub_wrap (a b : Z) : wrap (wrap a - b) = wrap (a - b).
Proof. rewrite <- !Z.add_opp_r. apply wrap_add_wrap. Qed.

Lemma bind_assert_Ok {A : Type} (b : bool) (cond : string)
    (k : unit -> checked A) (x : A) :
  bind (assert b cond) k = Ok x -> b = true /\ k tt = Ok x.
Proof. destruct b; simpl; [auto | discriminate]. Qed.

Lemma operator_add_assign_inv (it it' : array_iterator) (n : Z) :
  operator_add_assign it n = Ok it' ->
  it' = mk (ptr_ it) (wrap (pos_ it + n)) (ArrayIterator.size_ it)
  /\ 0 <= wrap (pos_ it + n) <= ArrayIterator.size_ it.
Proof.
  unfold operator_add_assign, ptrdiff_add. intros H.
  apply bind_assert_Ok in H as [H1 H]. apply bind_assert_Ok in H as [H2 H].
  injection H as <-. split; [reflexivity | lia].
Qed.

Lemma operator_sub_assign_inv (it it' : array_iterator) (n : Z) :
  operator_sub_assign it n = Ok it' ->
  it' = mk (ptr_ it) (wrap (pos_ it - n)) (ArrayIterator.size_ it)
  /\ 0 <= wrap (pos_ it - n) <= ArrayIterator.size_ it.
Proof.
  unfold operator_sub_assign, ptrdiff_sub. intros H.
  apply bind_assert_Ok in H as [H1 H]. apply bind_assert_Ok in H as [H2 H].
  injection H as <-. split; [reflexivity | lia].
Qed.

Lemma operator_plus_inv (it it' : array_iterator) (n : Z) :
  operator_plus it n = Ok it' ->
  it' = mk (ptr_ it) (wrap (pos_ it + n)) (ArrayIterator.size_ it)
  /\ 0 <= wrap (pos_ it + n) <= ArrayIterator.size_ it.
Proof.
  unfold operator_plus. intros H. apply operator_add_assign_inv.
  destruct (operator_add_assign it n); [exact H | discriminate H].
Qed.

Lemma operator_minus_inv (it it' : array_iterator) (n : Z) :
  operator_minus it n = Ok it' ->
  it' = mk (ptr_ it) (wrap (pos_ it - n)) (ArrayIterator.size_ it)
  /\ 0 <= wrap (pos_ it - n) <= ArrayIterator.size_ it.
Proof.
  unfold operator_minus. intros H. apply operator_sub_assign_inv.
  destruct (operator_sub_assign it n); [exact H | discriminate H].
Qed.

Lemma operator_preinc_Ok (it : array_iterator) :
  0 <= pos_ it -> pos_ it < ArrayIterator.size_ it ->
  ArrayIterator.size_ it <= PTRDIFF_MAX ->
  operator_preinc it = Ok (mk (ptr_ it) (pos_ it + 1) (ArrayIterator.size_ it)).
Proof.
  intros H0 Hlt Hs. unfold operator_preinc, ptrdiff_add.
  rewrite assert_true by lia. simpl. now rewrite wrap_representable by range.
Qed.

Lemma operator_predec_Ok (it : array_iterator) :
  0 < pos_ it -> pos_ it <= ArrayIterator.size_ it ->
  ArrayIterator.size_ it <= PTRDIFF_MAX ->
  operator_predec it = Ok (mk (ptr_ it) (pos_ it - 1) (ArrayIterator.size_ it)).
Proof.
  intros H0 Hle Hs. unfold operator_predec, ptrdiff_sub.
  rewrite assert_true by lia. simpl. now rewrite wrap_representable by range.
Qed.

(** ** Arithmetic never leaves the view *)

(** X1. Whenever [++], [--], [+=], [-=], [it + n], [n + it] or [it - n] returns on
    an iterator of a view, the result is an iterator of the same view: same
    base pointer, same length, position in [[0, size]]. This holds for every
    offset [n], also one whose sum with the position overflows. *)
Theorem checked_arithmetic_keeps_iterator
    (v : array_ref) (it it' : array_iterator) (n : Z) :
  well_formed v -> iterator_of v it ->
  operator_preinc it = Ok it' \/ operator_predec it = Ok it'
  \/ operator_add_assign it n = Ok it' \/ operator_sub_assign it n = Ok it'
  \/ operator_plus it n = Ok it' \/ operator_minus it n = Ok it'
  \/ operator_plus_l n it = Ok it' ->
  iterator_of v it'.
Proof.
  intros [Hv Hs] (Hp & Hsz & Hpos) H.
  assert (Hstep : forall q : Z,
             0 <= q <= ArrayIterator.size_ it ->
             iterator_of v (mk (ptr_ it) q (ArrayIterator.size_ it))).
  { intros q Hq. unfold iterator_of; simpl. rewrite <- Hsz. auto. }
  destruct H as [H | [H | [H | [H | [H | [H | H]]]]]].
  - unfold operator_preinc, ptrdiff_add in H.
    apply bind_assert_Ok in H as [Hlt H]. injection H as <-.
    rewrite wrap_representable by range. apply Hstep. lia.
  - unfold operator_predec, ptrdiff_sub in H.
    apply bind_assert_Ok in H as [Hlt H]. injection H as <-.
    rewrite wrap_representable by range. apply Hstep. lia.
  - apply operator_add_assign_inv in H as [-> Hq]. now apply Hstep.
  - apply operator_sub_assign_inv in H as [-> Hq]. now apply Hstep.
  - apply operator_plus_inv in H as [-> Hq]. now apply Hstep.
  - apply operator_minus_inv in H as [-> Hq]. now apply Hstep.
  - apply operator_plus_inv in H as [-> Hq]. now apply Hstep.
Qed.

Lemma checked_arithmetic_keeps_iterator_witness :
  iterator_of (mk_ref (Ptr 1 0) 10) (mk (Ptr 1 0) 7 10).
Proof.
  apply (checked_arithmetic_keeps_iterator (mk_ref (Ptr 1 0) 10)
           (mk (Ptr 1 0) 9 10) (mk (Ptr 1 0) 7 10) 2).
  - split; [reflexivity | unfold PTRDIFF_MAX; simpl; lia].
  - unfold iterator_of; simpl. split; [reflexivity | split; [reflexivity | lia]].
  - right. right. right. right. right. left. reflexivity.
Defined.

(** ** Stepping at the two ends *)

(** X2. For an iterator of a view: at the end, [++] and [it++] fail
    [assert(pos_ < size_)]; at the beginning, [--] and [it--] fail
    [assert(pos_ > 0)]. Anywhere else [++it] is [it + 1] and [--it] is
    [it - 1], [--(++it)] is [it] again, and the postfix forms return the
    iterator as it was together with the stepped one. *)
Theorem stepping_at_the_ends (v : array_ref) (it : array_iterator) :
  well_formed v -> iterator_of v it ->
  (pos_ it = size v ->
   operator_preinc it = AssertionFailed "pos_ < size_"
   /\ operator_postinc it = AssertionFailed "pos_ < size_")
  /\ (pos_ it = 0 ->
      operator_predec it = AssertionFailed "pos_ > 0"
      /\ operator_postdec it = AssertionFailed "pos_ > 0")
  /\ (pos_ it < size v ->
      operator_preinc it = operator_plus it 1
      /\ (i <- operator_preinc it ;; operator_predec i) = Ok it
      /\ operator_postinc it =
           Ok (it, mk (ptr_ it) (pos_ it + 1) (ArrayIterator.size_ it)))
  /\ (0 < pos_ it ->
      operator_predec it = operator_minus it 1
      /\ operator_postdec it =
           Ok (it, mk (ptr_ it) (pos_ it - 1) (ArrayIterator.size_ it))).
Proof.
  unfold size. intros [Hv Hs] (Hp & Hsz & Hpos).
  split; [| split; [| split]].
  - intros He.
    assert (operator_preinc it = AssertionFailed "pos_ < size_") as H.
    { unfold operator_preinc. now rewrite assert_false by lia. }
    split; [exact H |]. unfold operator_postinc. now rewrite H.
  - intros H0.
    assert (operator_predec it = AssertionFailed "pos_ > 0") as H.
    { unfold operator_predec. now rewrite assert_false by lia. }
    split; [exact H |]. unfold operator_postdec. now rewrite H.
  - intros Hlt.
    assert (operator_preinc it
            = Ok (mk (ptr_ it) (pos_ it + 1) (ArrayIterator.size_ it))) as H
      by (apply operator_preinc_Ok; lia).
    split; [| split].
    + rewrite H. symmetry. apply operator_plus_Ok; lia.
    + rewrite H. simpl. rewrite operator_predec_Ok by (simpl; lia). simpl.
      destruct it; simpl. do 2 f_equal. lia.
    + unfold operator_postinc. now rewrite H.
  - intros Hgt.
    assert (operator_predec it
            = Ok (mk (ptr_ it) (pos_ it - 1) (ArrayIterator.size_ it))) as H
      by (apply operator_predec_Ok; lia).
    split.
    + rewrite H. symmetry. apply operator_minus_Ok; lia.
    + unfold operator_postdec. now rewrite H.
Qed.

Lemma stepping_at_the_ends_witness :
  operator_preinc (mk (Ptr 1 0) 10 10) = AssertionFailed "pos_ < size_"
  /\ operator_predec (mk (Ptr 1 0) 0 10) = AssertionFailed "pos_ > 0"
  /\ operator_postinc (mk (Ptr 1 0) 0 10)
     = Ok (mk (Ptr 1 0) 0 10, mk (Ptr 1 0) 1 10).
Proof.
  assert (Hwf : well_formed (mk_ref (Ptr 1 0) 10))
    by (split; [reflexivity | unfold PTRDIFF_MAX; simpl; lia]).
  assert (Hit : forall q, 0 <= q <= 10 ->
            iterator_of (mk_ref (Ptr 1 0) 10) (mk (Ptr 1 0) q 10))
    by (intros q Hq; unfold iterator_of; simpl; auto).
  destruct (stepping_at_the_ends (mk_ref (Ptr 1 0) 10) (mk (Ptr 1 0) 10 10)
              Hwf (Hit 10 ltac:(lia))) as (Hend & _).
  destruct (stepping_at_the_ends (mk_ref (Ptr 1 0) 10) (mk (Ptr 1 0) 0 10)
              Hwf (Hit 0 ltac:(lia))) as (_ & Hbegin & Hinc & _).
  split; [| split].
  - apply Hend. reflexivity.
  - apply Hbegin. reflexivity.
  - apply Hinc. unfold size; simpl. lia.
Defined.

(** ** Indexing an iterator *)

(** X3. [it[n]] returns an element exactly when [*(it + n)] does, and then the
    same one; this holds for every iterator and every [n] (only the assertion
    that fails first can differ). *)
Theorem index_is_deref_of_plus (it : array_iterator) (n : Z) (p : pointer) :
  ArrayIterator.operator_index it n = Ok p <->
  (c <- operator_plus it n ;; operator_deref c) = Ok p.
Proof.
  unfold ArrayIterator.operator_index, operator_plus, operator_add_assign,
    operator_deref, ptrdiff_add.
  set (w := wrap (pos_ it + n)).
  destruct (negb (ptr_eqb (ptr_ it) nullptr)) eqn:Hn,
           (w >=? 0) eqn:H0, (w <=? ArrayIterator.size_ it) eqn:H1,
           (w <? ArrayIterator.size_ it) eqn:H2;
    simpl; rewrite ?Hn, ?H2; simpl;
    solve [ reflexivity
          | split; intros E; discriminate E
          | exfalso; lia ].
Qed.

(** ** Offsets undo each other *)

(** X4. For iterators [a] and [b] of one view: if [a + n] returns, [(a + n) - n]
    is [a]; if [a - n] returns, [(a - n) + n] is [a]; and [b + (a - b)] is
    [a]. *)
Theorem offsets_round_trip (v : array_ref) (a b : array_iterator) (n : Z) :
  well_formed v -> iterator_of v a -> iterator_of v b ->
  (forall c, operator_plus a n = Ok c -> operator_minus c n = Ok a)
  /\ (forall c, operator_minus a n = Ok c -> operator_plus c n = Ok a)
  /\ (d <- operator_diff a b ;; operator_plus b d) = Ok a.
Proof.
  intros [Hv Hs] (Hpa & Hsa & Hposa) (Hpb & Hsb & Hposb).
  assert (Hback : forall q : Z, wrap q = pos_ a ->
            mk (ptr_ a) (wrap q) (ArrayIterator.size_ a) = a).
  { intros q ->. now destruct a. }
  split; [| split].
  - intros c Hc. apply operator_plus_inv in Hc as [-> Hq].
    unfold operator_minus, operator_sub_assign, ptrdiff_sub; simpl.
    rewrite wrap_sub_wrap.
    replace (pos_ a + n - n) with (pos_ a) by lia.
    rewrite (wrap_representable (pos_ a)) by range.
    rewrite !assert_true by lia. simpl.
    rewrite <- (wrap_representable (pos_ a)) at 1 by range.
    f_equal. apply Hback. apply wrap_representable. range.
  - intros c Hc. apply operator_minus_inv in Hc as [-> Hq].
    unfold operator_plus, operator_add_assign, ptrdiff_add; simpl.
    rewrite wrap_add_wrap.
    replace (pos_ a - n + n) with (pos_ a) by lia.
    rewrite (wrap_representable (pos_ a)) by range.
    rewrite !assert_true by lia. simpl.
    rewrite <- (wrap_representable (pos_ a)) at 1 by range.
    f_equal. apply Hback. apply wrap_representable. range.
  - rewrite operator_diff_Ok by (try congruence; range). simpl.
    rewrite operator_plus_Ok by lia. f_equal.
    destruct a, b; simpl in *. subst. do 2 f_equal. lia.
Qed.

Lemma offsets_round_trip_witness :
  operator_minus (mk (Ptr 1 0) 7 10) 5 = Ok (mk (Ptr 1 0) 2 10)
  /\ (d <- operator_diff (mk (Ptr 1 0) 2 10) (mk (Ptr 1 0) 9 10) ;;
      operator_plus (mk (Ptr 1 0) 9 10) d) = Ok (mk (Ptr 1 0) 2 10).
Proof.
  destruct (offsets_round_trip (mk_ref (Ptr 1 0) 10) (mk (Ptr 1 0) 2 10)
              (mk (Ptr 1 0) 9 10) 5) as (Hplus & _ & Hdiff).
  - split; [reflexivity | unfold PTRDIFF_MAX; simpl; lia].
  - unfold iterator_of; simpl. split; [reflexivity | split; [reflexivity | lia]].
  - unfold iterator_of; simpl. split; [reflexivity | split; [reflexivity | lia]].
  - split; [apply (Hplus (mk (Ptr 1 0) 7 10)); reflexivity | exact Hdiff].
Defined.

(** ** Comparing iterators *)

Lemma iterator_eq_same_base (a b : array_iterator) :
  ptr_ a = ptr_ b -> ArrayIterator.operator_eq a b = Ok (pos_ a =? pos_ b).
Proof. intros Hp. unfold ArrayIterator.operator_eq. now rewrite Hp, ptr_eqb_refl. Qed.

Lemma iterator_lt_same_base (a b : array_iterator) :
  ptr_ a = ptr_ b -> operator_lt a b = Ok (pos_ a <? pos_ b).
Proof. intros Hp. unfold operator_lt. now rewrite Hp, ptr_eqb_refl. Qed.

(** X5. For two iterators with the same base pointer the six comparisons return
    what the corresponding comparisons of the positions return ([<=] and
    [>=], written as negations of [<], included), and exactly one of [<],
    [==], [>] holds. *)
Theorem comparisons_follow_positions (a b : array_iterator) :
  ptr_ a = ptr_ b ->
  ArrayIterator.operator_eq a b = Ok (pos_ a =? pos_ b)
  /\ ArrayIterator.operator_ne a b = Ok (negb (pos_ a =? pos_ b))
  /\ operator_lt a b = Ok (pos_ a <? pos_ b)
  /\ operator_gt a b = Ok (pos_ a >? pos_ b)
  /\ operator_le a b = Ok (pos_ a <=? pos_ b)
  /\ operator_ge a b = Ok (pos_ a >=? pos_ b)
  /\ ((operator_lt a b = Ok true /\ ArrayIterator.operator_eq a b = Ok false
       /\ operator_gt a b = Ok false)
      \/ (operator_lt a b = Ok false /\ ArrayIterator.operator_eq a b = Ok true
          /\ operator_gt a b = Ok false)
      \/ (operator_lt a b = Ok false /\ ArrayIterator.operator_eq a b = Ok false
          /\ operator_gt a b = Ok true)).
Proof.
  intros Hp.
  pose proof (iterator_eq_same_base a b Hp) as Heq.
  pose proof (iterator_lt_same_base a b Hp) as Hlt.
  pose proof (iterator_lt_same_base b a (eq_sym Hp)) as Hgt'.
  assert (Hgt : operator_gt a b = Ok (pos_ a >? pos_ b)).
  { unfold operator_gt. rewrite Hgt'. f_equal. now rewrite Z.gtb_ltb. }
  split; [exact Heq |]. split; [unfold ArrayIterator.operator_ne; now rewrite Heq |].
  split; [exact Hlt |]. split; [exact Hgt |]. split; [| split].
  - unfold operator_le. rewrite Hgt'. simpl. f_equal.
    destruct (Z.ltb_spec (pos_ b) (pos_ a)), (Z.leb_spec (pos_ a) (pos_ b));
      simpl; try reflexivity; lia.
  - unfold operator_ge. rewrite Hlt. simpl. f_equal.
    rewrite Z.geb_leb.
    destruct (Z.ltb_spec (pos_ a) (pos_ b)), (Z.leb_spec (pos_ b) (pos_ a));
      simpl; try reflexivity; lia.
  - rewrite Heq, Hlt, Hgt, Z.gtb_ltb.
    destruct (Z.ltb_spec (pos_ a) (pos_ b)), (Z.eqb_spec (pos_ a) (pos_ b)),
             (Z.ltb_spec (pos_ b) (pos_ a)); try lia; auto.
Qed.

Lemma comparisons_follow_positions_witness :
  operator_le (mk (Ptr 1 0) 2 10) (mk (Ptr 1 0) 2 10) = Ok true
  /\ operator_ge (mk (Ptr 1 0) 0 10) (mk (Ptr 1 0) 10 10) = Ok false.
Proof.
  destruct (comparisons_follow_positions (mk (Ptr 1 0) 2 10)
              (mk (Ptr 1 0) 2 10) eq_refl) as (_ & _ & _ & _ & Hle & _).
  destruct (comparisons_follow_positions (mk (Ptr 1 0) 0 10)
              (mk (Ptr 1 0) 10 10) eq_refl) as (_ & _ & _ & _ & _ & Hge & _).
  split; [exact Hle | exact Hge].
Defined.

(** X6. Iterators with different base pointers cannot be compared, subtracted or
    made into a view: each of the six comparisons, the difference and the
    (iterator, iterator) constructor fails the assertion that the two base
    pointers are equal. *)
Theorem iterators_of_different_views (a b : array_iterator) :
  ptr_ a <> ptr_ b ->
  ArrayIterator.operator_eq a b = AssertionFailed "lhs.ptr_ == rhs.ptr_"
  /\ ArrayIterator.operator_ne a b = AssertionFailed "lhs.ptr_ == rhs.ptr_"
  /\ operator_lt a b = AssertionFailed "lhs.ptr_ == rhs.ptr_"
  /\ operator_gt a b = AssertionFailed "lhs.ptr_ == rhs.ptr_"
  /\ operator_le a b = AssertionFailed "lhs.ptr_ == rhs.ptr_"
  /\ operator_ge a b = AssertionFailed "lhs.ptr_ == rhs.ptr_"
  /\ operator_diff a b = AssertionFailed "ptr_ == rhs.ptr_"
  /\ of_iterators a b = AssertionFailed "ptr_ == rhs.ptr_".
Proof.
  intros Hne.
  assert (Hab : ptr_eqb (ptr_ a) (ptr_ b) = false) by now apply ptr_eqb_neq.
  assert (Hba : ptr_eqb (ptr_ b) (ptr_ a) = false)
    by (apply ptr_eqb_neq; congruence).
  unfold ArrayIterator.operator_ne, operator_gt, operator_le, operator_ge,
    of_iterators, ArrayIterator.operator_eq, operator_lt, operator_diff.
  rewrite Hab, Hba. simpl. repeat split.
Qed.

Lemma iterators_of_different_views_witness :
  ArrayIterator.operator_eq (mk (Ptr 1 0) 0 10) (mk (Ptr 2 0) 0 10)
  = AssertionFailed "lhs.ptr_ == rhs.ptr_"
  /\ of_iterators (mk (Ptr 1 0) 0 10) (mk (Ptr 2 0) 0 10)
     = AssertionFailed "ptr_ == rhs.ptr_".
Proof.
  destruct (iterators_of_different_views (mk (Ptr 1 0) 0 10) (mk (Ptr 2 0) 0 10))
    as (Heq & _ & _ & _ & _ & _ & _ & Hctor).
  - discriminate.
  - split; [exact Heq | exact Hctor].
Defined.

(** ** The two ends of a view *)

(** X7. For a view that satisfies its constructors' assertion: [begin() == end()]
    exactly when the view is empty, [begin() <= end()] always, and
    dereferencing [end()] always fails an assertion, while [*begin()] is the
    first element exactly when the view is not empty. *)
Theorem begin_meets_end_when_empty (v : array_ref) :
  well_formed v ->
  (b <- begin v ;; e <- end_ v ;; ArrayIterator.operator_eq b e) = Ok (empty v)
  /\ (b <- begin v ;; e <- end_ v ;; ArrayIterator.operator_ne b e)
     = Ok (negb (empty v))
  /\ (b <- begin v ;; e <- end_ v ;; operator_lt b e) = Ok (negb (empty v))
  /\ (b <- begin v ;; e <- end_ v ;; operator_le b e) = Ok true
  /\ (exists c, (e <- end_ v ;; operator_deref e) = AssertionFailed c)
  /\ (exists c, (e <- end_ v ;; operator_arrow e) = AssertionFailed c)
  /\ (empty v = false -> (b <- begin v ;; operator_deref b) = Ok (data v))
  /\ (empty v = true ->
      exists c, (b <- begin v ;; operator_deref b) = AssertionFailed c).
Proof.
  intros [Hv Hs]. pose proof (valid_size_nonneg v Hv) as H0.
  rewrite begin_Ok, end_Ok by assumption. cbn [bind].
  unfold ArrayIterator.operator_ne, operator_le.
  rewrite !iterator_eq_same_base, !iterator_lt_same_base by reflexivity.
  unfold empty, data, operator_deref, operator_arrow.
  cbn [bind ptr_ pos_ ArrayIterator.size_].
  assert (Hnull : 0 < size_ v -> ptr_eqb (data_ v) nullptr = false)
    by (intros; now apply ptr_eqb_neq, valid_nonempty_not_null).
  assert (Hend : forall (c1 c2 : string) (k : unit -> checked pointer),
            exists c, bind (assert (negb (ptr_eqb (data_ v) nullptr)) c1)
                        (fun _ => bind (assert (size_ v <? size_ v) c2) k)
                      = AssertionFailed c).
  { intros c1 c2 k. rewrite (assert_false (size_ v <? size_ v)) by lia.
    destruct (negb (ptr_eqb (data_ v) nullptr)); simpl; eexists; reflexivity. }
  assert (E1 : (0 =? size_ v) = (size_ v =? 0)) by apply Z.eqb_sym.
  assert (E2 : (0 <? size_ v) = negb (size_ v =? 0)).
  { destruct (Z.ltb_spec 0 (size_ v)), (Z.eqb_spec (size_ v) 0);
      simpl; solve [reflexivity | lia]. }
  assert (E3 : negb (size_ v <? 0) = true).
  { destruct (Z.ltb_spec (size_ v) 0); simpl; solve [reflexivity | lia]. }
  rewrite E1, E2, E3.
  split; [reflexivity |]. split; [reflexivity |]. split; [reflexivity |].
  split; [reflexivity |]. split; [| split; [| split]].
  - apply Hend.
  - apply Hend.
  - intros He. pose proof He as Hne. apply Z.eqb_neq in Hne.
    rewrite Hnull by lia. simpl. rewrite He. simpl. now rewrite ptr_add_0.
  - intros He. rewrite He. simpl.
    destruct (negb (ptr_eqb (data_ v) nullptr)); simpl; eexists; reflexivity.
Qed.

Lemma begin_meets_end_when_empty_witness :
  (b <- begin (mk_ref (Ptr 1 3) 0) ;; e <- end_ (mk_ref (Ptr 1 3) 0) ;;
   ArrayIterator.operator_eq b e) = Ok true
  /\ (b <- begin (mk_ref (Ptr 1 0) 10) ;; e <- end_ (mk_ref (Ptr 1 0) 10) ;;
      ArrayIterator.operator_eq b e) = Ok false.
Proof.
  destruct (begin_meets_end_when_empty (mk_ref (Ptr 1 3) 0)) as (He & _).
  - split; [reflexivity | unfold PTRDIFF_MAX; simpl; lia].
  - destruct (begin_meets_end_when_empty (mk_ref (Ptr 1 0) 10)) as (Hf & _).
    + split; [reflexivity | unfold PTRDIFF_MAX; simpl; lia].
    + split; [exact He | exact Hf].
Defined.

(** * Further properties of the view *)

(** ** Views made from two iterators or two pointers *)

(** X8. For iterators [a] and [b] of a view [v]: [array_ref(a, b)] is the part of
    [v] from the position of [a] to the position of [b] when [a] is not
    after [b], and fails the constructor's assertion when [a] is after [b];
    [array_ref(v.begin(), v.end())] is [v] itself. *)
Theorem view_of_two_iterators (v : array_ref) (a b : array_iterator) :
  well_formed v -> iterator_of v a -> iterator_of v b ->
  (pos_ a <= pos_ b ->
   of_iterators a b = Ok (mk_ref (ptr_add (data v) (pos_ a)) (pos_ b - pos_ a))
   /\ within v (mk_ref (ptr_add (data v) (pos_ a)) (pos_ b - pos_ a)))
  /\ (pos_ b < pos_ a ->
      of_iterators a b = AssertionFailed
        "(data_ == nullptr && size_ == 0) || (data_ != nullptr && size_ >= 0)")
  /\ (f <- begin v ;; l <- end_ v ;; of_iterators f l) = Ok v.
Proof.
  unfold data. intros [Hv Hs] (Hpa & Hsa & Hposa) (Hpb & Hsb & Hposb).
  pose proof (valid_size_nonneg v Hv) as H0.
  destruct v as [p s], a as [pa qa sa], b as [pb qb sb]. simpl in *. subst.
  split; [| split].
  - intros Hle. split.
    + apply of_iterators_Ok; auto; lia.
    + apply (within_shift (mk_ref p s)); simpl; lia.
  - intros Hlt. unfold of_iterators.
    rewrite operator_diff_Ok by (try reflexivity; range).
    cbn [bind]. unfold ptr; cbn [ptr_ pos_].
    rewrite assert_false; [reflexivity |].
    unfold valid; simpl. rewrite ptr_add_null.
    rewrite (proj2 (ptr_eqb_neq p nullptr))
      by (apply (valid_nonempty_not_null (mk_ref p s)); simpl; [assumption | lia]).
    simpl. lia.
  - rewrite begin_Ok, end_Ok by assumption. simpl.
    rewrite of_iterators_Ok by (auto; lia).
    now rewrite ptr_add_0, Z.sub_0_r.
Qed.

Lemma view_of_two_iterators_witness :
  of_iterators (mk (Ptr 1 0) 2 10) (mk (Ptr 1 0) 7 10) = Ok (mk_ref (Ptr 1 2) 5)
  /\ of_iterators (mk (Ptr 1 0) 7 10) (mk (Ptr 1 0) 2 10)
     = AssertionFailed
         "(data_ == nullptr && size_ == 0) || (data_ != nullptr && size_ >= 0)".
Proof.
  assert (Hwf : well_formed (mk_ref (Ptr 1 0) 10))
    by (split; [reflexivity | unfold PTRDIFF_MAX; simpl; lia]).
  assert (Hit : forall q, 0 <= q <= 10 ->
            iterator_of (mk_ref (Ptr 1 0) 10) (mk (Ptr 1 0) q 10))
    by (intros q Hq; unfold iterator_of; simpl; auto).
  destruct (view_of_two_iterators (mk_ref (Ptr 1 0) 10) (mk (Ptr 1 0) 2 10)
              (mk (Ptr 1 0) 7 10) Hwf (Hit 2 ltac:(lia)) (Hit 7 ltac:(lia)))
    as (Hle & _).
  destruct (view_of_two_iterators (mk_ref (Ptr 1 0) 10) (mk (Ptr 1 0) 7 10)
              (mk (Ptr 1 0) 2 10) Hwf (Hit 7 ltac:(lia)) (Hit 2 ltac:(lia)))
    as (_ & Hgt & _).
  split.
  - apply Hle. simpl. lia.
  - apply Hgt. simpl. lia.
Defined.

(** X9. [array_ref(v.data(), v.data() + v.size())] is [v] again, and with the two
    pointers of a non-empty range swapped the constructor's assertion
    fails. *)
Theorem view_of_two_pointers (v : array_ref) (n : Z) :
  well_formed v ->
  of_pointers (data v) (ptr_add (data v) (size v)) = Some (Ok v)
  /\ (data v <> nullptr -> 0 < n <= PTRDIFF_MAX ->
      of_pointers (ptr_add (data v) n) (data v)
      = Some (AssertionFailed
          "(data_ == nullptr && size_ == 0) || (data_ != nullptr && size_ >= 0)")).
Proof.
  unfold data, size. intros [Hv Hs]. pose proof (valid_size_nonneg v Hv) as H0.
  destruct v as [[|b o] s]; simpl in *.
  - split; [| intros H; congruence].
    unfold valid in Hv; simpl in Hv.
    assert (s = 0) as -> by lia. reflexivity.
  - split.
    + unfold of_pointers; simpl. rewrite Pos.eqb_refl.
      replace (o + s - o) with s by lia.
      rewrite wrap_representable by range. now rewrite Hv.
    + intros _ Hn. unfold of_pointers; simpl. rewrite Pos.eqb_refl.
      replace (o - (o + n)) with (- n) by lia.
      rewrite wrap_representable by range.
      rewrite assert_false; [reflexivity |]. unfold valid; simpl. lia.
Qed.

Lemma view_of_two_pointers_witness :
  of_pointers (Ptr 1 0) (Ptr 1 10) = Some (Ok (mk_ref (Ptr 1 0) 10)).
Proof.
  destruct (view_of_two_pointers (mk_ref (Ptr 1 0) 10) 1) as (Hrt & _).
  - split; [reflexivity | unfold PTRDIFF_MAX; simpl; lia].
  - exact Hrt.
Defined.

(** ** Views that were never checked *)

Lemma take_back_invalid (v : array_ref) (n : Z) :
  valid v = false -> take_back v n = AssertionFailed range_assertion.
Proof. intros H. unfold take_back. now rewrite end_invalid. Qed.

Lemma drop_back_invalid (v : array_ref) (n : Z) :
  valid v = false -> drop_back v n = AssertionFailed range_assertion.
Proof. intros H. unfold drop_back. now rewrite begin_invalid. Qed.

(** X10. [begin()] and [end()] return exactly for the views that satisfy
    [(data_ == nullptr && size_ == 0) || (data_ != nullptr && size_ >= 0)].
    A view that does not (the (pointer, count), array and container
    constructors assert nothing) fails that assertion in [begin()], [end()]
    and in every sub-range operation, whatever the arguments. *)
Theorem unchecked_views_fail_at_begin (v : array_ref) (n m : Z) :
  ((exists it, begin v = Ok it) <-> valid v = true)
  /\ ((exists it, end_ v = Ok it) <-> valid v = true)
  /\ (valid v = false ->
      begin v = AssertionFailed range_assertion
      /\ end_ v = AssertionFailed range_assertion
      /\ take_front v n = AssertionFailed range_assertion
      /\ take_back v n = AssertionFailed range_assertion
      /\ drop_front v n = AssertionFailed range_assertion
      /\ drop_back v n = AssertionFailed range_assertion
      /\ subarray v n m = AssertionFailed range_assertion
      /\ slice v n m = AssertionFailed range_assertion).
Proof.
  split; [| split].
  - destruct (valid v) eqn:Hv.
    + split; [reflexivity | intros _; eexists; now apply begin_Ok].
    + rewrite begin_invalid by assumption.
      split; [intros [it H]; discriminate H | discriminate].
  - destruct (valid v) eqn:Hv.
    + split; [reflexivity | intros _; eexists; now apply end_Ok].
    + rewrite end_invalid by assumption.
      split; [intros [it H]; discriminate H | discriminate].
  - intros Hv. unfold subarray, slice.
    rewrite (begin_invalid v Hv), (end_invalid v Hv),
      (take_front_invalid v n Hv), (take_front_invalid v m Hv),
      (take_back_invalid v n Hv), (drop_front_invalid v n Hv),
      (drop_back_invalid v n Hv).
    simpl. auto 10.
Qed.

Lemma unchecked_views_fail_at_begin_witness :
  begin (mk_ref nullptr 5) = AssertionFailed range_assertion
  /\ slice (mk_ref (Ptr 1 0) (-1)) 0 0 = AssertionFailed range_assertion.
Proof.
  destruct (unchecked_views_fail_at_begin (mk_ref nullptr 5) 0 0)
    as (_ & _ & Hnull).
  destruct (unchecked_views_fail_at_begin (mk_ref (Ptr 1 0) (-1)) 0 0)
    as (_ & _ & Hneg).
  destruct (Hnull eq_refl) as (Hb & _).
  destruct (Hneg eq_refl) as (_ & _ & _ & _ & _ & _ & _ & Hs).
  split; [exact Hb | exact Hs].
Defined.

(** ** Sub-ranges at and beyond the size *)

Lemma mk_ref_eta (v : array_ref) : mk_ref (data_ v) (size_ v) = v.
Proof. now destruct v. Qed.

(** X11. Asking for at least [size()] elements changes nothing when taking and
    leaves an empty view when dropping: for [n >= size()], [take_front(n)]
    and [take_back(n)] are the view itself, [drop_front(n)] is the empty view
    at [data() + size()] and [drop_back(n)] the empty view at [data()];
    dropping 0 elements is the view itself. *)
Theorem taking_all_dropping_all (v : array_ref) (n : Z) :
  well_formed v -> size v <= n ->
  take_front v n = Ok v
  /\ take_back v n = Ok v
  /\ drop_front v n = Ok (mk_ref (ptr_add (data v) (size v)) 0)
  /\ drop_back v n = Ok (mk_ref (data v) 0)
  /\ drop_front v 0 = Ok v
  /\ drop_back v 0 = Ok v.
Proof.
  unfold size, data. intros Hwf Hn. pose proof Hwf as [Hv Hs].
  pose proof (valid_size_nonneg v Hv) as H0.
  rewrite take_front_Ok, take_back_Ok, !drop_front_Ok, !drop_back_Ok
    by (auto; lia).
  rewrite (Z.min_r n (size_ v)) by lia.
  rewrite (Z.min_l 0 (size_ v)) by lia.
  rewrite !Z.sub_diag, !Z.sub_0_r, !ptr_add_0, mk_ref_eta. auto 10.
Qed.

Lemma taking_all_dropping_all_witness :
  take_back (mk_ref (Ptr 1 0) 10) 25 = Ok (mk_ref (Ptr 1 0) 10)
  /\ drop_front (mk_ref (Ptr 1 0) 10) 25 = Ok (mk_ref (Ptr 1 10) 0).
Proof.
  destruct (taking_all_dropping_all (mk_ref (Ptr 1 0) 10) 25)
    as (_ & Hback & Hdrop & _).
  - split; [reflexivity | unfold PTRDIFF_MAX; simpl; lia].
  - unfold size; simpl. lia.
  - split; [exact Hback | exact Hdrop].
Defined.

(** X12. [take_front(n)] and [drop_front(n)] cut the view in two: the first starts
    at [data()], the second starts where the first ends, and the two sizes
    add up to [size()]. The same holds for [drop_back(n)] and
    [take_back(n)]. *)
Theorem front_and_rest_partition (v : array_ref) (n : Z) :
  well_formed v -> 0 <= n ->
  (exists f r : array_ref,
     take_front v n = Ok f /\ drop_front v n = Ok r
     /\ data f = data v /\ data r = ptr_add (data f) (size f)
     /\ size f + size r = size v)
  /\ (exists i l : array_ref,
        drop_back v n = Ok i /\ take_back v n = Ok l
        /\ data i = data v /\ data l = ptr_add (data i) (size i)
        /\ size i + size l = size v).
Proof.
  unfold size, data. intros Hwf Hn. split.
  - eexists. eexists.
    split; [now apply take_front_Ok |]. split; [now apply drop_front_Ok |].
    simpl. split; [reflexivity |]. split; [reflexivity | lia].
  - eexists. eexists.
    split; [now apply drop_back_Ok |]. split; [now apply take_back_Ok |].
    simpl. split; [reflexivity |]. split; [reflexivity | lia].
Qed.

Lemma front_and_rest_partition_witness :
  exists f r : array_ref,
    take_front (mk_ref (Ptr 1 0) 10) 3 = Ok f
    /\ drop_front (mk_ref (Ptr 1 0) 10) 3 = Ok r
    /\ data f = data (mk_ref (Ptr 1 0) 10)
    /\ data r = ptr_add (data f) (size f)
    /\ size f + size r = size (mk_ref (Ptr 1 0) 10).
Proof.
  destruct (front_and_rest_partition (mk_ref (Ptr 1 0) 10) 3) as (Hfront & _).
  - split; [reflexivity | unfold PTRDIFF_MAX; simpl; lia].
  - lia.
  - exact Hfront.
Defined.

(** ** Sub-ranges of sub-ranges *)

(** X13. For non-negative counts: taking twice takes the smaller count, dropping
    twice drops the sum; [take_back(n)] is [drop_front] of the rest and
    [drop_back(n)] is [take_front] of the rest; [subarray(0, n)] and
    [slice(0, n)] are [take_front(n)]. *)
Theorem subranges_compose (v : array_ref) (n m : Z) :
  well_formed v -> 0 <= n -> 0 <= m ->
  (t <- take_front v n ;; take_front t m) = take_front v (Z.min n m)
  /\ (d <- drop_front v n ;; drop_front d m) = drop_front v (n + m)
  /\ (t <- take_back v n ;; take_back t m) = take_back v (Z.min n m)
  /\ (d <- drop_back v n ;; drop_back d m) = drop_back v (n + m)
  /\ take_back v n = drop_front v (size v - Z.min n (size v))
  /\ drop_back v n = take_front v (size v - Z.min n (size v))
  /\ subarray v 0 n = take_front v n
  /\ slice v 0 n = take_front v n.
Proof.
  unfold size. intros Hwf Hn Hm. pose proof Hwf as [Hv Hs].
  pose proof (valid_size_nonneg v Hv) as H0.
  assert (Hsame : forall s', 0 <= s' <= size_ v ->
                    well_formed (mk_ref (data_ v) s'))
    by (intros; now apply well_formed_same_start).
  assert (Hshift : forall k s', 0 <= k -> 0 <= s' -> k + s' <= size_ v ->
                     well_formed (mk_ref (ptr_add (data_ v) k) s'))
    by (intros; now apply well_formed_shift).
  assert (Hfin : forall (p q : pointer) (a b : Z),
            p = q -> a = b -> Ok (mk_ref p a) = Ok (mk_ref q b))
    by (intros; subst; reflexivity).
  split; [| split; [| split; [| split; [| split; [| split; [| split]]]]]].
  - rewrite (take_front_Ok v n), (take_front_Ok v (Z.min n m)) by (auto; lia).
    cbn [bind]. rewrite take_front_Ok by (try apply Hsame; lia).
    cbn [data_ size_]. apply Hfin; [reflexivity | lia].
  - rewrite (drop_front_Ok v n), (drop_front_Ok v (n + m)) by (auto; lia).
    cbn [bind]. rewrite drop_front_Ok by (try apply Hshift; lia).
    cbn [data_ size_]. rewrite ptr_add_add. apply Hfin; [f_equal |]; lia.
  - rewrite (take_back_Ok v n), (take_back_Ok v (Z.min n m)) by (auto; lia).
    cbn [bind]. rewrite take_back_Ok by (try apply Hshift; lia).
    cbn [data_ size_]. rewrite ptr_add_add. apply Hfin; [f_equal |]; lia.
  - rewrite (drop_back_Ok v n), (drop_back_Ok v (n + m)) by (auto; lia).
    cbn [bind]. rewrite drop_back_Ok by (try apply Hsame; lia).
    cbn [data_ size_]. apply Hfin; [reflexivity | lia].
  - rewrite (take_back_Ok v n), drop_front_Ok by (auto; lia).
    apply Hfin; [f_equal |]; lia.
  - rewrite (drop_back_Ok v n), take_front_Ok by (auto; lia).
    apply Hfin; [reflexivity | lia].
  - rewrite subarray_Ok, take_front_Ok by (auto; lia).
    rewrite <- (ptr_add_0 (data_ v)) at 2. apply Hfin; [f_equal |]; lia.
  - rewrite slice_Ok, take_front_Ok by (auto; lia).
    rewrite <- (ptr_add_0 (data_ v)) at 2. apply Hfin; [f_equal |]; lia.
Qed.

Lemma subranges_compose_witness :
  (d <- drop_front (mk_ref (Ptr 1 0) 10) 3 ;; drop_front d 4)
  = drop_front (mk_ref (Ptr 1 0) 10) (3 + 4)
  /\ take_back (mk_ref (Ptr 1 0) 10) 3
     = drop_front (mk_ref (Ptr 1 0) 10) (size (mk_ref (Ptr 1 0) 10) - Z.min 3 (size (mk_ref (Ptr 1 0) 10))).
Proof.
  destruct (subranges_compose (mk_ref (Ptr 1 0) 10) 3 4)
    as (_ & Hdrop & _ & _ & Hback & _).
  - split; [reflexivity | unfold PTRDIFF_MAX; simpl; lia].
  - lia.
  - lia.
  - split; [exact Hdrop | exact Hback].
Defined.

(** ** Negative bounds of [subarray] and [slice] *)

Lemma take_front_negative (v : array_ref) (n : Z) :
  well_formed v -> representable n -> n < 0 ->
  take_front v n = AssertionFailed "pos_ + n >= 0".
Proof.
  intros [Hv Hs] Hr Hn. pose proof (valid_size_nonneg v Hv) as H0.
  unfold take_front, size.
  rewrite (Min_negative n (size_ v)), begin_Ok by assumption. simpl.
  now rewrite operator_plus_negative.
Qed.

Lemma drop_front_negative (v : array_ref) (n : Z) :
  well_formed v -> representable n -> n < 0 ->
  drop_front v n = AssertionFailed "pos_ + n >= 0".
Proof.
  intros [Hv Hs] Hr Hn. pose proof (valid_size_nonneg v Hv) as H0.
  unfold drop_front, size.
  rewrite (Min_negative n (size_ v)), begin_Ok by assumption. simpl.
  now rewrite operator_plus_negative.
Qed.

(** X14. [subarray(first, last)] and [slice(first, n)] do not clamp a negative
    argument either: as soon as one of the two arguments is negative, both
    fail [assert(pos_ + n >= 0)] of the iterator addition. *)
Theorem negative_bounds_fail (v : array_ref) (first last : Z) :
  well_formed v -> representable first -> representable last ->
  first < 0 \/ last < 0 ->
  subarray v first last = AssertionFailed "pos_ + n >= 0"
  /\ slice v first last = AssertionFailed "pos_ + n >= 0".
Proof.
  intros Hwf Hf Hl Hneg. pose proof Hwf as [Hv Hs].
  pose proof (valid_size_nonneg v Hv) as H0.
  unfold subarray, slice. split.
  - destruct (Z.neg_nonneg_cases last) as [Hlast | Hlast].
    + now rewrite take_front_negative.
    + rewrite take_front_Ok by assumption. cbn [bind].
      apply drop_front_negative; [| assumption | lia].
      apply well_formed_same_start; [assumption | lia].
  - destruct (Z.neg_nonneg_cases first) as [Hfirst | Hfirst].
    + now rewrite drop_front_negative.
    + rewrite drop_front_Ok by assumption. cbn [bind].
      apply take_front_negative; [| assumption | lia].
      apply well_formed_shift; auto; lia.
Qed.

Lemma negative_bounds_fail_witness :
  subarray (mk_ref (Ptr 1 0) 10) (-1) 5 = AssertionFailed "pos_ + n >= 0"
  /\ slice (mk_ref (Ptr 1 0) 10) (-1) 5 = AssertionFailed "pos_ + n >= 0".
Proof.
  apply (negative_bounds_fail (mk_ref (Ptr 1 0) 10) (-1) 5).
  - split; [reflexivity | unfold PTRDIFF_MAX; simpl; lia].
  - unfold representable, PTRDIFF_MIN, PTRDIFF_MAX. lia.
  - unfold representable, PTRDIFF_MIN, PTRDIFF_MAX. lia.
  - left. lia.
Defined.

(** ** Indices outside the view *)

(** X15. For a view that satisfies its constructors' assertion and an index [i]
    that is negative or at least [size()], each of [v[i]], [*(v.begin() + i)]
    and [v.begin()[i]] fails an assertion. *)
Theorem index_out_of_range_fails (v : array_ref) (i : Z) :
  well_formed v -> representable i -> i < 0 \/ size v <= i ->
  (exists c, ArrayRef.operator_index v i = AssertionFailed c)
  /\ (exists c, (b <- begin v ;; p <- operator_plus b i ;; operator_deref p)
                = AssertionFailed c)
  /\ (exists c, (b <- begin v ;; ArrayIterator.operator_index b i)
                = AssertionFailed c).
Proof.
  unfold size. intros [Hv Hs] Hr Hi. rewrite begin_Ok by assumption. cbn [bind].
  assert (Hfail : forall (A : Type) (x : checked A),
            (forall a, x <> Ok a) -> exists c, x = AssertionFailed c).
  { intros A [a | c] H; [destruct (H a eq_refl) | now exists c]. }
  split; [| split]; apply Hfail; intros a Ha.
  - unfold ArrayRef.operator_index in Ha.
    apply bind_assert_Ok in Ha as [H1 Ha]. apply bind_assert_Ok in Ha as [H2 _].
    lia.
  - destruct (operator_plus (mk (data_ v) 0 (size_ v)) i) as [q |] eqn:Hq;
      [| discriminate Ha].
    apply operator_plus_inv in Hq as [-> Hq]. cbn [bind] in Ha.
    unfold operator_deref in Ha. cbn [ptr_ pos_ ArrayIterator.size_] in *.
    apply bind_assert_Ok in Ha as [_ Ha]. apply bind_assert_Ok in Ha as [H2 _].
    rewrite Z.add_0_l, wrap_representable in * by assumption. lia.
  - unfold ArrayIterator.operator_index, ptrdiff_add in Ha.
    cbn [ptr_ pos_ ArrayIterator.size_] in Ha.
    apply bind_assert_Ok in Ha as [_ Ha]. apply bind_assert_Ok in Ha as [H1 Ha].
    apply bind_assert_Ok in Ha as [H2 _].
    rewrite Z.add_0_l, wrap_representable in * by assumption. lia.
Qed.

Lemma index_out_of_range_fails_witness :
  (exists c, ArrayRef.operator_index (mk_ref (Ptr 1 0) 10) 10 = AssertionFailed c)
  /\ (exists c, (b <- begin (mk_ref (Ptr 1 0) 10) ;; p <- operator_plus b 10 ;;
                 operator_deref p) = AssertionFailed c)
  /\ (exists c, (b <- begin (mk_ref (Ptr 1 0) 10) ;;
                 ArrayIterator.operator_index b 10) = AssertionFailed c).
Proof.
  apply (index_out_of_range_fails (mk_ref (Ptr 1 0) 10) 10).
  - split; [reflexivity | unfold PTRDIFF_MAX; simpl; lia].
  - unfold representable, PTRDIFF_MIN, PTRDIFF_MAX. lia.
  - right. unfold size; simpl. lia.
Defined.

(** * Further properties of the conversions *)

(** ** Views of containers *)

Lemma is_array_convertible_add_const (X T : cv_type) :
  is_const T = true ->
  is_array_convertible (add_const X) T = is_array_convertible X T.
Proof.
  unfold is_array_convertible, add_const; simpl. intros ->.
  now destruct (is_const X).
Qed.

Lemma is_array_convertible_from_const (X T : cv_type) :
  is_const T = false -> is_array_convertible (add_const X) T = false.
Proof.
  unfold is_array_convertible, add_const; simpl. intros ->.
  simpl. now rewrite andb_false_r.
Qed.

(** X16. A view of element type [T] can be made from a [std::vector<X>] or
    [std::array<X, N>] exactly when [X] converts to [T] and either [T] is
    const-qualified or the container is a non-const lvalue: a view of mutable
    elements is never made from a const container or from a temporary. The
    view then holds the container's [data()] and [size()]. *)
Theorem view_of_std_container
    (cat : value_category) (cst : bool) (X T : cv_type) (d : pointer) (n : Z) :
  ((exists w, of_container_ref T (std_container cat cst X d n) = Some w
              \/ of_container_cref T (std_container cat cst X d n) = Some w)
   <-> is_array_convertible X T = true
       /\ (is_const T = true \/ (cat = lvalue /\ cst = false)))
  /\ (forall w, of_container_ref T (std_container cat cst X d n) = Some w
                \/ of_container_cref T (std_container cat cst X d n) = Some w ->
                w = mk_ref d (wrap n)).
Proof.
  unfold of_container_ref, of_container_cref, std_container; simpl.
  destruct (is_const T) eqn:HT.
  - rewrite is_array_convertible_add_const by assumption.
    assert (Hc : is_array_convertible (if cst then add_const X else X) T
                 = is_array_convertible X T).
    { destruct cst; [now apply is_array_convertible_add_const | reflexivity]. }
    rewrite Hc. simpl.
    destruct (is_array_convertible X T); simpl.
    + split.
      * split; [auto | intros _; eexists; right; reflexivity].
      * intros w [H | H].
        -- destruct cat, cst; simpl in H; congruence.
        -- congruence.
    + rewrite andb_false_r. split.
      * split; [intros [w [H | H]]; discriminate H | intros [H _]; discriminate H].
      * intros w [H | H]; discriminate H.
  - simpl. destruct cst.
    + rewrite is_array_convertible_from_const by assumption.
      rewrite andb_false_r. split.
      * split; [intros [w [H | H]]; discriminate H |].
        intros [_ [H | [_ H]]]; discriminate H.
      * intros w [H | H]; discriminate H.
    + destruct cat, (is_array_convertible X T); simpl; split;
        try (split; [intros [w [H | H]]; discriminate H |]);
        try (intros [H1 [H2 | [H2 H3]]]; discriminate);
        try (intros w [H | H]; congruence).
      split; [auto | intros _; eexists; left; reflexivity].
Qed.

Lemma view_of_std_container_witness :
  ~ (exists w, of_container_ref (plain "int")
                 (std_container rvalue false (plain "int") (Ptr 1 0) 4) = Some w
               \/ of_container_cref (plain "int")
                    (std_container rvalue false (plain "int") (Ptr 1 0) 4)
                  = Some w).
Proof.
  destruct (view_of_std_container rvalue false (plain "int") (plain "int")
              (Ptr 1 0) 4) as [[H _] _].
  intros Hex. destruct (H Hex) as [_ [Hc | [Hc _]]]; discriminate Hc.
Defined.

(** ** Conversions keep what is viewed *)

(** X17. A conversion between element types never moves the iterator or the view:
    the converted iterator has the same base pointer, position and length,
    and the converted view the same data pointer and size. *)
Theorem conversions_keep_the_range
    (cat : value_category) (cst : bool) (U T : cv_type)
    (it it' : array_iterator) (v w : array_ref) :
  representable (size v) ->
  (converting U T it = Some it' -> it' = it)
  /\ (convert cat cst U T v = Some w -> w = v).
Proof.
  unfold size. intros Hr. split.
  - unfold converting. destruct (is_array_convertible U T); [| discriminate].
    intros H. injection H as <-. now destruct it.
  - unfold convert, of_container_ref, of_container_cref, as_container, data, size.
    simpl. rewrite wrap_representable by assumption. rewrite mk_ref_eta.
    destruct (cv_type_eqb U T); [congruence |].
    destruct (_ && _); [congruence |].
    destruct (_ && _); [congruence | discriminate].
Qed.

Lemma conversions_keep_the_range_witness :
  exists w, convert rvalue false (plain "int") (add_const (plain "int"))
              (mk_ref (Ptr 1 0) 10) = Some w
            /\ w = mk_ref (Ptr 1 0) 10.
Proof.
  eexists. split; [reflexivity |].
  destruct (conversions_keep_the_range rvalue false (plain "int")
              (add_const (plain "int")) (mk (Ptr 1 0) 0 10) (mk (Ptr 1 0) 0 10)
              (mk_ref (Ptr 1 0) 10) (mk_ref (Ptr 1 0) 10)) as [_ H].
  - unfold representable, PTRDIFF_MIN, PTRDIFF_MAX, size; simpl. lia.
  - apply H. reflexivity.
Defined.

(** ** Raw pointers of an iterator *)

(** X18. With [_MSC_VER]: [_Unchecked(it)] is [it.ptr()], and for an iterator of a
    view [_Rechecked(it, _Unchecked(it))] is [it] again. [_Rechecked] asserts
    nothing: given any pointer [data() + k] into the storage it returns an
    iterator at position [k], inside [[0, size]] or not. *)
Theorem unchecked_rechecked_round_trip (v : array_ref) (it : array_iterator) :
  well_formed v -> iterator_of v it ->
  _Unchecked it = ptr it
  /\ _Rechecked it (_Unchecked it) = Some it
  /\ (forall k : Z, representable k -> data v <> nullptr ->
        _Rechecked it (ptr_add (data v) k)
        = Some (mk (ptr_ it) k (ArrayIterator.size_ it))
        /\ _Unchecked (mk (ptr_ it) k (ArrayIterator.size_ it))
           = ptr_add (data v) k).
Proof.
  unfold data. intros [Hv Hs] (Hp & Hsz & Hpos).
  pose proof (valid_size_nonneg v Hv) as H0.
  destruct v as [p s], it as [q pos sz]. simpl in *. subst.
  split; [reflexivity |]. unfold _Rechecked, _Unchecked. simpl.
  destruct p as [| b o]; simpl.
  - unfold valid in Hv; simpl in Hv.
    assert (pos = 0) as -> by lia.
    split; [reflexivity | intros k _ H; congruence].
  - rewrite Pos.eqb_refl. split.
    + replace (o + pos - o) with pos by lia.
      now rewrite wrap_representable by range.
    + intros k Hk _. replace (o + k - o) with k by lia.
      now rewrite wrap_representable by assumption.
Qed.

Lemma unchecked_rechecked_round_trip_witness :
  _Rechecked (mk (Ptr 1 0) 3 10) (_Unchecked (mk (Ptr 1 0) 3 10))
  = Some (mk (Ptr 1 0) 3 10).
Proof.
  destruct (unchecked_rechecked_round_trip (mk_ref (Ptr 1 0) 10)
              (mk (Ptr 1 0) 3 10)) as (_ & Hrt & _).
  - split; [reflexivity | unfold PTRDIFF_MAX; simpl; lia].
  - unfold iterator_of; simpl. split; [reflexivity | split; [reflexivity | lia]].
  - exact Hrt.
Defined.
